(** * Contact form application (app.js): validation, persistence and listing

    A shallow embedding of the Express application of [src/app.js]:
    the Zod schema [contatoSchema], the three route handlers, and the
    access-log middleware, together with the properties the specification
    states about them.

    JavaScript strings are sequences of UTF-16 code units, request bodies
    are JavaScript values whose objects are finite maps from property names
    to values, and the handlers run in a state-and-exception monad over the
    parts of the process they touch: the response object, the console, the
    persistence collaborator and the file system. *)

From Stdlib Require Import NArith List String Ascii Bool Lia.
From stdpp Require Import gmap.

Set Warnings "-register-all".
Local Open Scope N_scope.

(** ** JavaScript strings *)

(** A JavaScript string is a sequence of 16-bit code units; [length] counts
    code units, as [String.prototype.length] does. *)
Abbreviation jsstring := (list N).

Module Utf.

(** Decoding of the UTF-8 text of a source file into code points.  Input
    that is not well formed is not expected (the literals of the program are
    valid UTF-8); a stray byte is kept as it is. *)
Fixpoint decode (bs : list N) : list N :=
  match bs with
  | [] => []
  | b :: t =>
      if b <? 0x80 then b :: decode t
      else if b <? 0xE0 then
        match t with
        | c1 :: t1 => ((b mod 0x20) * 0x40 + c1 mod 0x40) :: decode t1
        | [] => [b]
        end
      else if b <? 0xF0 then
        match t with
        | c1 :: c2 :: t2 =>
            ((b mod 0x10) * 0x1000 + (c1 mod 0x40) * 0x40 + c2 mod 0x40)
              :: decode t2
        | _ => b :: decode t
        end
      else
        match t with
        | c1 :: c2 :: c3 :: t3 =>
            ((b mod 0x08) * 0x40000 + (c1 mod 0x40) * 0x1000
             + (c2 mod 0x40) * 0x40 + c3 mod 0x40) :: decode t3
        | _ => b :: decode t
        end
  end.

(** A code point as one code unit, or as a surrogate pair. *)
Definition units (cp : N) : list N :=
  if cp <? 0x10000 then [cp]
  else [0xD800 + (cp - 0x10000) / 0x400; 0xDC00 + (cp - 0x10000) mod 0x400].

Fixpoint bytes (s : string) : list N :=
  match s with
  | EmptyString => []
  | String a t => N_of_ascii a :: bytes t
  end.

End Utf.

(** The JavaScript string denoted by a literal of the source text. *)
Definition js (s : string) : jsstring :=
  concat (map Utf.units (Utf.decode (Utf.bytes s))).

(** [Array.prototype.join] on an array of strings. *)
Fixpoint join (sep : jsstring) (l : list jsstring) : jsstring :=
  match l with
  | [] => []
  | [x] => x
  | x :: t => x ++ sep ++ join sep t
  end.

(** ** JavaScript values *)

(** What a body parser ([express.json], [express.urlencoded]) can produce,
    and [undefined].  The payload of a number is its binary64 bit pattern,
    which this program never inspects. *)
Inductive jsval : Type :=
| JUndefined
| JNull
| JBool (b : bool)
| JNumber (bits : N)
| JString (s : jsstring)
| JArray (items : list jsval)
| JObject (props : gmap (list N) jsval).

(** An error value: what a rejected promise or a [throw] carries. *)
Record JsError : Type := mkError { err_name : jsstring; err_message : jsstring }.

(** ** Regular expressions *)

(** The fragment of JavaScript patterns the program and its validation
    library use.  Every pattern here has the form [/^...$/] without the
    [m] flag, so [RegExp.prototype.test] is a match of the whole input
    against the part between the anchors, which is what a [regex] stands
    for.  [And] and [Not] express the negative lookaheads that stand at the
    start of a pattern. *)
Inductive regex : Type :=
| Void
| Eps
| Cls (negated : bool) (ranges : list (N * N))
| Cat (a b : regex)
| Alt (a b : regex)
| Star (a : regex)
| And (a b : regex)
| Not (a : regex).

Definition in_ranges (ranges : list (N * N)) (c : N) : bool :=
  existsb (fun r => (fst r <=? c) && (c <=? snd r)) ranges.

Definition in_class (negated : bool) (ranges : list (N * N)) (c : N) : bool :=
  xorb negated (in_ranges ranges c).

Fixpoint nullable (r : regex) : bool :=
  match r with
  | Void => false
  | Eps => true
  | Cls _ _ => false
  | Cat a b => nullable a && nullable b
  | Alt a b => nullable a || nullable b
  | Star _ => true
  | And a b => nullable a && nullable b
  | Not a => negb (nullable a)
  end.

(** Brzozowski derivative: the words [s] such that [c :: s] matches. *)
Fixpoint deriv (c : N) (r : regex) : regex :=
  match r with
  | Void => Void
  | Eps => Void
  | Cls n rs => if in_class n rs c then Eps else Void
  | Cat a b =>
      if nullable a then Alt (Cat (deriv c a) b) (deriv c b)
      else Cat (deriv c a) b
  | Alt a b => Alt (deriv c a) (deriv c b)
  | Star a => Cat (deriv c a) (Star a)
  | And a b => And (deriv c a) (deriv c b)
  | Not a => Not (deriv c a)
  end.

Fixpoint matches (r : regex) (s : jsstring) : bool :=
  match s with
  | [] => nullable r
  | c :: t => matches (deriv c r) t
  end.

(** Pattern syntax. *)
Definition lit (s : string) : regex :=
  fold_right (fun c r => Cat (Cls false [(c, c)]) r) Eps (js s).

Fixpoint rep (n : nat) (r : regex) : regex :=
  match n with
  | O => Eps
  | S k => Cat r (rep k r)
  end.

Definition seq (rs : list regex) : regex := fold_right Cat Eps rs.

Definition plus (r : regex) : regex := Cat r (Star r).

(** [\d]: the ASCII digits. *)
Definition digit : regex := Cls false [(48, 57)].

(** [.]: any code unit but a line terminator. *)
Definition dot : regex := Cls true [(10, 10); (13, 13); (0x2028, 0x2029)].

(** The language of a pattern, for reasoning about [matches]. *)
Inductive star_of (L : jsstring -> Prop) : jsstring -> Prop :=
| star_nil : star_of L []
| star_app s1 s2 : L s1 -> star_of L s2 -> star_of L (s1 ++ s2).

Fixpoint lang (r : regex) : jsstring -> Prop :=
  match r with
  | Void => fun _ => False
  | Eps => fun s => s = []
  | Cls n rs => fun s => exists c, s = [c] /\ in_class n rs c = true
  | Cat a b => fun s => exists s1 s2, s = s1 ++ s2 /\ lang a s1 /\ lang b s2
  | Alt a b => fun s => lang a s \/ lang b s
  | Star a => star_of (lang a)
  | And a b => fun s => lang a s /\ lang b s
  | Not a => fun s => ~ lang a s
  end.

(** ** The validation library *)

(** What [typeof]-style classification the library applies to its input. *)
Inductive ZodParsedType : Type :=
| TUndefined | TNull | TBoolean | TNumber | TString | TArray | TObject.

Definition getParsedType (v : jsval) : ZodParsedType :=
  match v with
  | JUndefined => TUndefined
  | JNull => TNull
  | JBool _ => TBoolean
  | JNumber _ => TNumber
  | JString _ => TString
  | JArray _ => TArray
  | JObject _ => TObject
  end.

(** The two things the program takes from Zod without fixing them itself:
    the pattern behind [.email()], and the message of the default error map
    for an input of the wrong type (used where the schema gives none). *)
Class Zod : Type := {
  isEmail : jsstring -> bool;
  defaultError : ZodParsedType -> jsval -> jsstring
}.

(** The checks of a string schema, in the order they were chained. *)
Inductive StringCheck : Type :=
| CheckMin (value : nat) (message : jsstring)
| CheckEmail (message : jsstring)
| CheckRegex (pattern : regex) (message : jsstring).

Record ZodString : Type := mkZodString {
  typeMessage : option jsstring;
  checks : list StringCheck
}.

Record ZodIssue : Type := mkIssue { path : list jsstring; message : jsstring }.

Inductive SafeParseResult : Type :=
| Success (data : gmap (list N) jsval)
| Failure (issues : list ZodIssue).

Module z.

Definition string (message : option jsstring) : ZodString :=
  mkZodString message [].

Definition min (value : nat) (message : jsstring) (s : ZodString) : ZodString :=
  mkZodString (typeMessage s) (checks s ++ [CheckMin value message]).

Definition email (message : jsstring) (s : ZodString) : ZodString :=
  mkZodString (typeMessage s) (checks s ++ [CheckEmail message]).

Definition regex (pattern : regex) (message : jsstring) (s : ZodString)
  : ZodString :=
  mkZodString (typeMessage s) (checks s ++ [CheckRegex pattern message]).

(** A [z.object] schema is its shape: the keys in declaration order. *)
Definition object (shape : list (jsstring * ZodString))
  : list (jsstring * ZodString) := shape.

End z.

Notation "s '.>' f" := (f s) (at level 45, left associativity, only parsing).

Section Validation.
Context {zod : Zod}.

(** The message a check leaves when the string fails it. *)
Definition runCheck (s : jsstring) (c : StringCheck) : option jsstring :=
  match c with
  | CheckMin value message =>
      if (length s <? value)%nat then Some message else None
  | CheckEmail message =>
      if isEmail s then None else Some message
  | CheckRegex pattern message =>
      if matches pattern s then None else Some message
  end.

(** [ZodString._parse]: an input that is not a string yields one issue and
    no check runs; on a string every check runs. *)
Definition parseString (schema : ZodString) (v : jsval) : list jsstring :=
  match v with
  | JString s => omap (runCheck s) (checks schema)
  | _ => [default (defaultError TString v) (typeMessage schema)]
  end.

(** Property read [o[k]] on an object of a parsed body. *)
Definition prop (props : gmap (list N) jsval) (k : jsstring) : jsval :=
  default JUndefined (props !! k).

(** [ZodObject._parse] with the default handling of unknown keys (they are
    dropped): every key of the shape is parsed, in order, and the issues
    are gathered. *)
Definition parseObject (shape : list (jsstring * ZodString)) (v : jsval)
  : SafeParseResult :=
  match v with
  | JObject props =>
      let issues :=
        flat_map (fun '(k, schema) =>
                    map (mkIssue [k]) (parseString schema (prop props k)))
                 shape in
      match issues with
      | [] =>
          Success
            (fold_right (fun '(k, _) data =>
                           match props !! k with
                           | Some x => <[k := x]> data
                           | None => data
                           end) ∅ shape)
      | _ => Failure issues
      end
  | _ => Failure [mkIssue [] (defaultError TObject v)]
  end.

Definition safeParse := parseObject.

End Validation.

(** ** The application: schema *)

(** [/^\(\d{2}\) \d{5}-\d{4}$/] *)
Definition telefoneRegex : regex :=
  seq [lit "("; rep 2 digit; lit ")"; lit " "; rep 5 digit; lit "-";
       rep 4 digit].

Definition contatoSchema : list (jsstring * ZodString) :=
  z.object
    [ (js "nome",
        z.string (Some (js "Campo nome é obrigatório"))
          .> z.min 3 (js "O nome deve ter no mínimo 03 caracteres."));
      (js "email",
        z.string (Some (js "Campo e-mail é obrigatório."))
          .> z.email (js "Deve ser um e-mail válido."));
      (js "telefone",
        z.string None
          .> z.regex telefoneRegex (js "Deve enviar um telefone válido")) ].

(** ** The process: response, console, store, file system *)

(** The attributes object the submit handler builds for [Contato.create]. *)
Record ContatoAttrs : Type := mkAttrs {
  nome : jsval;
  telefone : jsval;
  email : jsval
}.

(** A stored contact as the persistence layer returns it: the attributes,
    with the identity and the timestamps that layer owns. *)
Record Row : Type := mkRow {
  row_id : N;
  row_attrs : ContatoAttrs;
  createdAt : N;
  updatedAt : N
}.

(** The [Contato] model: the persistence collaborator.  Each operation
    either resolves with a value or rejects with an error, and may change
    the store. *)
Class Model (Store : Type) : Type := {
  Contato_create : ContatoAttrs -> Store -> (JsError + Row) * Store;
  Contato_findAll : Store -> (JsError + list Row) * Store
}.

(** [fs.appendFile file data callback]: the error handed to the callback,
    if any, and the file system afterwards. *)
Class NodeFs (Disk : Type) : Type := {
  dirname : jsstring;
  appendFile : jsstring -> jsstring -> Disk -> option JsError * Disk
}.

(** [path.join] of a directory and a plain file name, for a directory
    given as [__dirname] gives it, absolute and normalised: the two are
    joined by one separator, which the root directory already ends in; an
    empty first segment is left out. *)
Definition path_join (dir file : jsstring) : jsstring :=
  match last dir with
  | None => file
  | Some c => if c =? 47 then dir ++ file else dir ++ js "/" ++ file
  end.

(** What has been written to the response. *)
Inductive Payload : Type :=
| Text (body : jsstring)
| View (name : jsstring) (contatos : option (list Row)).

Record Response : Type := mkResponse {
  statusCode : N;
  payload : option Payload
}.

(** A response nothing has been written to yet. *)
Definition fresh : Response := mkResponse 200 None.

Inductive StoreCall : Type :=
| CallCreate (attrs : ContatoAttrs)
| CallFindAll.

Record World (Store Disk : Type) : Type := mkWorld {
  res : Response;
  console : list (jsstring * JsError);
  db : Store;
  calls : list StoreCall;
  disk : Disk
}.
Arguments mkWorld {Store Disk}.
Arguments res {Store Disk}.
Arguments console {Store Disk}.
Arguments db {Store Disk}.
Arguments calls {Store Disk}.
Arguments disk {Store Disk}.

(** How a handler ends: it returns (its promise resolves), or an exception
    leaves it (its promise rejects). *)
Inductive Outcome (A : Type) : Type :=
| Returned (a : A)
| Thrown (e : JsError).
Arguments Returned {A}.
Arguments Thrown {A}.

Section Worlds.
Context {Store Disk : Type}.

(** The process as the next request finds it: a response of its own. *)
Definition renew (w : World Store Disk) : World Store Disk :=
  mkWorld fresh (console w) (db w) (calls w) (disk w).

(** The same process over another file system. *)
Definition with_disk (d : Disk) (w : World Store Disk) : World Store Disk :=
  mkWorld (res w) (console w) (db w) (calls w) d.

(** A computation that neither reads nor writes the file system. *)
Definition disk_blind {A} (m : World Store Disk -> Outcome A * World Store Disk)
  : Prop :=
  forall d w, m (with_disk d w) = (fst (m w), with_disk d (snd (m w))).

End Worlds.

Section Runtime.
Context {Store Disk : Type} {model : Model Store} {fs : NodeFs Disk}.

Definition M (A : Type) : Type :=
  World Store Disk -> Outcome A * World Store Disk.

Definition ret {A} (a : A) : M A := fun w => (Returned a, w).

Definition throw {A} (e : JsError) : M A := fun w => (Thrown e, w).

Definition bind {A B} (m : M A) (k : A -> M B) : M B :=
  fun w =>
    match m w with
    | (Returned a, w') => k a w'
    | (Thrown e, w') => (Thrown e, w')
    end.

(** [try { m } catch (error) { h error }] *)
Definition try_catch {A} (m : M A) (h : JsError -> M A) : M A :=
  fun w =>
    match m w with
    | (Returned a, w') => (Returned a, w')
    | (Thrown e, w') => h e w'
    end.

Definition set_res (r : Response) : M unit :=
  fun w => (Returned tt, mkWorld r (console w) (db w) (calls w) (disk w)).

(** [res.status(code)] *)
Definition res_status (code : N) : M unit :=
  fun w => set_res (mkResponse code (payload (res w))) w.

(** Writing a payload; a response is written once. *)
Definition res_write (p : Payload) : M unit :=
  fun w =>
    match payload (res w) with
    | None => set_res (mkResponse (statusCode (res w)) (Some p)) w
    | Some _ =>
        (Thrown (mkError (js "Error") (js "ERR_HTTP_HEADERS_SENT")), w)
    end.

(** [res.send(body)] *)
Definition res_send (body : jsstring) : M unit := res_write (Text body).

(** [res.render(view, { contatos })] *)
Definition res_render (view : jsstring) (contatos : option (list Row))
  : M unit := res_write (View view contatos).

(** [console.error(label, error)] *)
Definition console_error (label : jsstring) (e : JsError) : M unit :=
  fun w =>
    (Returned tt,
     mkWorld (res w) (console w ++ [(label, e)]) (db w) (calls w) (disk w)).

(** [await Contato.create(attrs)] *)
Definition await_create (attrs : ContatoAttrs) : M Row :=
  fun w =>
    let '(r, db') := Contato_create attrs (db w) in
    let w' := mkWorld (res w) (console w) db'
                      (calls w ++ [CallCreate attrs]) (disk w) in
    match r with
    | inl e => (Thrown e, w')
    | inr row => (Returned row, w')
    end.

(** [await Contato.findAll()] *)
Definition await_findAll : M (list Row) :=
  fun w =>
    let '(r, db') := Contato_findAll (db w) in
    let w' := mkWorld (res w) (console w) db'
                      (calls w ++ [CallFindAll]) (disk w) in
    match r with
    | inl e => (Thrown e, w')
    | inr rows => (Returned rows, w')
    end.

(** Property read [v.k]; reading a property of [undefined] or [null]
    throws. *)
Definition get (v : jsval) (k : jsstring) : M jsval :=
  match v with
  | JObject props => ret (prop props k)
  | JUndefined | JNull =>
      throw (mkError (js "TypeError") (js "Cannot read properties"))
  | _ => ret JUndefined
  end.

End Runtime.

Notation "x <- m ;; k" := (bind m (fun x => k))
  (at level 100, m at next level, right associativity).
Notation "m ;;; k" := (bind m (fun _ => k))
  (at level 100, right associativity).

(** ** The application: handlers *)

Record Request : Type := mkRequest {
  method : jsstring;
  originalUrl : jsstring;
  body : jsval
}.

Inductive Route : Type := GetRoot | PostRoot | GetContatos.

(** The router of Express: which of the three registered routes, if any,
    a request with this method and this URL is dispatched to. *)
Class Express : Type := { route : jsstring -> jsstring -> option Route }.

(** The line of the access log: time stamp, method, URL, line feed. *)
Definition logEntry (now : jsstring) (req : Request) : jsstring :=
  now ++ js " - " ++ method req ++ js " " ++ originalUrl req ++ [10].

Section App.
Context {Store Disk : Type} {zod : Zod} {router : Express}
        {model : Model Store} {fs : NodeFs Disk}.

(** [app.get("/")] *)
Definition getRoot : M (Store := Store) (Disk := Disk) unit :=
  res_render (js "index") None.

(** [app.post("/")] *)
Definition postRoot (reqBody : jsval) : M (Store := Store) (Disk := Disk) unit :=
  let contato := reqBody in
  let resultado := safeParse contatoSchema contato in
  match resultado with
  | Failure issues =>
      let erros := map message issues in
      res_status 400 ;;; res_send (join (js "; ") erros)
  | Success _ =>
      n <- get contato (js "nome") ;;
      t <- get contato (js "telefone") ;;
      e <- get contato (js "email") ;;
      _ <- await_create (mkAttrs n t e) ;;
      res_send (js "Contato salvo com sucesso")
  end.

(** [app.get("/contatos")] *)
Definition getContatos : M (Store := Store) (Disk := Disk) unit :=
  try_catch
    (contatos <- await_findAll ;;
     res_render (js "contatos") (Some contatos))
    (fun error =>
       console_error (js "Erro ao buscar contatos:") error ;;;
       res_status 500 ;;;
       res_send (js "Erro ao buscar contatos.")).

(** The access-log middleware.  [now] is [new Date().toISOString()] at the
    time of the request.  The append is started, [next()] runs the rest of
    the chain whatever the append will do, and the callback of the append
    runs later, with the error if there was one.  Here the callback runs
    once the chain has run; in the program it may also run while a handler
    waits for the store, which can only change the order of the lines on
    the console. *)
Definition logger (now : jsstring) (req : Request) (next : M unit)
  : M (Store := Store) (Disk := Disk) unit :=
  fun w =>
    let log := logEntry now req in
    let '(err, disk') :=
      appendFile (path_join dirname (js "access.log")) log (disk w) in
    let '(o, w1) :=
      next (mkWorld (res w) (console w) (db w) (calls w) disk') in
    match err with
    | Some e =>
        (o, snd (console_error (js "Erro ao escrever no arquivo de log:") e w1))
    | None => (o, w1)
    end.

(** The route a request is dispatched to.  A request no route matches is
    left to the framework. *)
Definition dispatch (req : Request) : M (Store := Store) (Disk := Disk) unit :=
  match route (method req) (originalUrl req) with
  | Some GetRoot => getRoot
  | Some PostRoot => postRoot (body req)
  | Some GetContatos => getContatos
  | None => ret tt
  end.

(** One request through the statements of the program: a response of its
    own, the logger, then the route.  The body of the request is what the
    parsers installed before the routes made of it; a request whose body
    they refuse does not reach a route and is answered by the framework, as
    is a request no route matches; what follows a handler that ended in an
    error is the framework's doing too. *)
Definition app (now : jsstring) (req : Request)
  : M (Store := Store) (Disk := Disk) unit :=
  fun w => logger now req (dispatch req) (renew w).

End App.

(** ** Collaborators made concrete *)

(** Character classes of the e-mail pattern. *)
Definition alnum : list (N * N) := [(65, 90); (97, 122); (48, 57)].
Definition anyUnit : regex := Cls true [].

(** The pattern behind [.email()] in Zod 3, read with its [i] flag.  In
    pieces: ^ (?!\.) (?!.*\.\.) ( [A-Z0-9_+.-]* with the apostrophe )
    [A-Z0-9_+-] @ ( [A-Z0-9] [A-Z0-9-]* \. )+ [A-Z]{2,} $.  The two
    lookaheads at the start are the two complements. *)
Definition emailRegex : regex :=
  let letter := Cls false [(65, 90); (97, 122)] in
  And (Not (Cat (lit ".") (Star anyUnit)))
    (And (Not (seq [Star dot; lit ".."; Star anyUnit]))
       (seq [ Star (Cls false (alnum ++ [(95, 95); (39, 39); (43, 43); (45, 45); (46, 46)]));
              Cls false (alnum ++ [(95, 95); (43, 43); (45, 45)]);
              lit "@";
              plus (seq [Cls false alnum; Star (Cls false (alnum ++ [(45, 45)])); lit "."]);
              letter; letter; Star letter ])).

Definition typeName (t : ZodParsedType) : jsstring :=
  match t with
  | TUndefined => js "undefined"
  | TNull => js "null"
  | TBoolean => js "boolean"
  | TNumber => js "number"
  | TString => js "string"
  | TArray => js "array"
  | TObject => js "object"
  end.

(** Zod 3 with its English error map. *)
Definition zod3 : Zod := {|
  isEmail := matches emailRegex;
  defaultError expected v :=
    match v with
    | JUndefined => js "Required"
    | _ => js "Expected " ++ typeName expected ++ js ", received "
              ++ typeName (getParsedType v)
    end
|}.

(** A router that knows the three routes by their exact method and path. *)
Definition exactRouter : Express := {|
  route m url :=
    if decide (m = js "GET" /\ url = js "/") then Some GetRoot
    else if decide (m = js "POST" /\ url = js "/") then Some PostRoot
    else if decide (m = js "GET" /\ url = js "/contatos") then Some GetContatos
    else None
|}.

(** Modelled from the spec: the [Contato] model and the table behind it
    (the model definition of [./models] and the database are not among the
    sources).  Section 4.2: [create] inserts a new row, assigns identity and
    timestamps and returns the stored representation, or fails with a
    storage error that is surfaced to the caller; [findAll] returns every
    stored contact, in insertion order.  [faults] schedules the outcome of
    the coming operations: [Some e] is a storage failure with error [e]. *)
Record Table : Type := mkTable {
  rows : list Row;
  nextId : N;
  clock : N;
  faults : list (option JsError)
}.

Definition table_create (attrs : ContatoAttrs) (t : Table)
  : (JsError + Row) * Table :=
  match faults t with
  | Some e :: rest => (inl e, mkTable (rows t) (nextId t) (clock t) rest)
  | _ =>
      let row := mkRow (nextId t) attrs (clock t) (clock t) in
      (inr row,
       mkTable (rows t ++ [row]) (nextId t + 1) (clock t + 1) (tl (faults t)))
  end.

Definition table_findAll (t : Table) : (JsError + list Row) * Table :=
  match faults t with
  | Some e :: rest => (inl e, mkTable (rows t) (nextId t) (clock t) rest)
  | _ => (inr (rows t), mkTable (rows t) (nextId t) (clock t) (tl (faults t)))
  end.

Definition tableModel : Model Table := {|
  Contato_create := table_create;
  Contato_findAll := table_findAll
|}.

Definition emptyTable (faults : list (option JsError)) : Table :=
  mkTable [] 1 0 faults.

(** A file system: the files by path, and the outcome of the coming
    appends ([Some e]: the append fails with [e] and writes nothing). *)
Record Files : Type := mkFiles {
  contents : gmap (list N) (list N);
  appendFaults : list (option JsError)
}.

Definition filesFs : NodeFs Files := {|
  dirname := js "/srv/app";
  appendFile file data d :=
    match appendFaults d with
    | Some e :: rest => (Some e, mkFiles (contents d) rest)
    | _ =>
        (None,
         mkFiles (<[file := default [] (contents d !! file) ++ data]> (contents d))
                 (tl (appendFaults d)))
    end
|}.

(** A process that has served nothing yet. *)
Definition boot (t : Table) (d : Files) : World Table Files :=
  mkWorld fresh [] t [] d.

(** A request body with the three fields of the form. *)
Definition form (n e t : string) : jsval :=
  JObject (<[js "nome" := JString (js n)]>
             (<[js "email" := JString (js e)]>
                (<[js "telefone" := JString (js t)]> ∅))).

(** Inputs the properties are tried on. *)
Definition anaSilva : jsval :=
  form "Ana Silva" "ana@example.com" "(11) 91234-5678".

Definition biaCosta : jsval :=
  form "Bia Costa" "bia.costa@example.org" "(21) 99876-5432".

Definition connectionLost : JsError :=
  mkError (js "SequelizeConnectionError") (js "connect ECONNREFUSED").

Definition noSpace : JsError :=
  mkError (js "Error") (js "ENOSPC: no space left on device").

Definition started : World Table Files := boot (emptyTable []) (mkFiles ∅ []).

Definition noon : jsstring := js "2024-05-01T12:00:00.000Z".

(** ** The specification's reading of the fields *)

(** The phone format in the specification's words: an opening parenthesis,
    two digits, a closing parenthesis, a space, five digits, a hyphen, four
    digits, and nothing else. *)
Definition is_digit (c : N) : bool := (48 <=? c) && (c <=? 57).

Definition phone_shape (s : jsstring) : bool :=
  match s with
  | [o; a1; a2; c; sp; b1; b2; b3; b4; b5; h; c1; c2; c3; c4] =>
      (o =? 40) && is_digit a1 && is_digit a2 && (c =? 41) && (sp =? 32)
      && is_digit b1 && is_digit b2 && is_digit b3 && is_digit b4
      && is_digit b5 && (h =? 45)
      && is_digit c1 && is_digit c2 && is_digit c3 && is_digit c4
  | _ => false
  end.

(** A field of a submitted body; a body that is not an object has none. *)
Definition field (reqBody : jsval) (k : jsstring) : jsval :=
  match reqBody with
  | JObject props => prop props k
  | _ => JUndefined
  end.

Section FieldRules.
Context {zod : Zod}.

(** Name: present, a string, at least 3 characters (counted as the
    language counts the length of a string, in code units). *)
Definition name_ok (v : jsval) : bool :=
  match v with
  | JString s => (3 <=? length s)%nat
  | _ => false
  end.

(** E-mail: present, a string, syntactically valid. *)
Definition email_ok (v : jsval) : bool :=
  match v with
  | JString s => isEmail s
  | _ => false
  end.

(** Phone: a string of the phone format. *)
Definition phone_ok (v : jsval) : bool :=
  match v with
  | JString s => phone_shape s
  | _ => false
  end.

(** All three fields pass. *)
Definition passes (reqBody : jsval) : bool :=
  name_ok (field reqBody (js "nome"))
  && email_ok (field reqBody (js "email"))
  && phone_ok (field reqBody (js "telefone")).

(** The messages of each field, as section 4.1 lists them. *)
Definition name_errors (v : jsval) : list jsstring :=
  match v with
  | JString s =>
      if (length s <? 3)%nat
      then [js "O nome deve ter no mínimo 03 caracteres."] else []
  | _ => [js "Campo nome é obrigatório"]
  end.

Definition email_errors (v : jsval) : list jsstring :=
  match v with
  | JString s => if isEmail s then [] else [js "Deve ser um e-mail válido."]
  | _ => [js "Campo e-mail é obrigatório."]
  end.

Definition phone_errors (v : jsval) : list jsstring :=
  match v with
  | JString s =>
      if phone_shape s then [] else [js "Deve enviar um telefone válido"]
  | _ => [defaultError TString v]
  end.

End FieldRules.

(** The error messages of a validation result (none when it succeeded). *)
Definition messages (r : SafeParseResult) : list jsstring :=
  match r with
  | Failure issues => map message issues
  | Success _ => []
  end.

(** The three submitted values of a body. *)
Definition attrsOf (reqBody : jsval) : ContatoAttrs :=
  mkAttrs (field reqBody (js "nome")) (field reqBody (js "telefone"))
          (field reqBody (js "email")).

(** The two answers of the submit handler to a request it serves. *)
Definition badRequest (erros : list jsstring) : Response :=
  mkResponse 400 (Some (Text (join (js "; ") erros))).

Definition saved : Response :=
  mkResponse 200 (Some (Text (js "Contato salvo com sucesso"))).

(** The two answers of the list handler. *)
Definition listed (contatos : list Row) : Response :=
  mkResponse 200 (Some (View (js "contatos") (Some contatos))).

Definition listFailed : Response :=
  mkResponse 500 (Some (Text (js "Erro ao buscar contatos."))).

(** Submissions served one after the other by the submit handler, over the
    table of the specification: the responses, and the process afterwards. *)
Fixpoint submitAll {zod : Zod} (bodies : list jsval) (w : World Table Files)
  : list Response * World Table Files :=
  match bodies with
  | [] => ([], w)
  | b :: rest =>
      let w1 := snd (postRoot (model := tableModel) (Disk := Files) b (renew w)) in
      let '(rs, w2) := submitAll rest w1 in
      (res w1 :: rs, w2)
  end.

(** ** The application: more of its behaviour *)

(** The answer of the form handler. *)
Definition indexView : Response :=
  mkResponse 200 (Some (View (js "index") None)).

Section Serving.
Context {Store Disk : Type} {zod : Zod} {model : Model Store}.

(** Submissions handled one after the other by the submit handler, each
    with a response of its own: the process afterwards. *)
Fixpoint postAll (bodies : list jsval) (w : World Store Disk)
  : World Store Disk :=
  match bodies with
  | [] => w
  | b :: rest => postAll rest (snd (postRoot b (renew w)))
  end.

End Serving.

(** ** The model registry

    The module behind [require('./models')], from the listing of its
    directory on: the selection of the model files, their loading into the
    registry, the association pass, and the two properties added to the
    exported object.  The choice of the configuration and the construction
    of the connection, which come first, are not part of it. *)

Module Models.

(** [String.prototype.endsWith] with one argument. *)
Definition endsWith (s searchString : jsstring) : bool :=
  let len := length s in
  let searchLength := length searchString in
  if (len <? searchLength)%nat then false
  else bool_decide (drop (len - searchLength) s = searchString).

(** The filter on the entries of the directory: not this file itself, a
    name that ends in ".js", and not one that ends in ".test.js". *)
Definition isModelFile (basename file : jsstring) : bool :=
  negb (bool_decide (file = basename))
  && endsWith file (js ".js")
  && negb (endsWith file (js ".test.js")).

(** What a model file yields once called with the connection: an object
    with a name and, for some, an [associate] function.  Of [associate] the
    registry sees one thing, whether the call returns or throws; it is
    given the registry, of which it can read the models by their names. *)
Record ModelDef : Type := mkModel {
  name : jsstring;
  associate : option (list jsstring -> option JsError)
}.

(** Own properties of an object, in the order they were created. *)
Definition Obj (V : Type) : Type := list (jsstring * V).

Fixpoint assign {V} (k : jsstring) (v : V) (o : Obj V) : Obj V :=
  match o with
  | [] => [(k, v)]
  | (k', v') :: t =>
      if bool_decide (k' = k) then (k', v) :: t else (k', v') :: assign k v t
  end.

(** [o[k] = v] on an ordinary object: an own property is created, or its
    value replaced where it stands; the key "__proto__" is the accessor of
    the prototype and creates no own property. *)
Definition put {V} (k : jsstring) (v : V) (o : Obj V) : Obj V :=
  if bool_decide (k = js "__proto__") then o else assign k v o.

Definition own {V} (k : jsstring) (o : Obj V) : option V :=
  snd <$> find (fun p => bool_decide (fst p = k)) o.

(** A key that is an array index: the canonical decimal form of an integer
    from 0 to 2^32 - 2. *)
Fixpoint decimal (acc : N) (s : jsstring) : option N :=
  match s with
  | [] => Some acc
  | c :: t => if is_digit c then decimal (acc * 10 + (c - 48)) t else None
  end.

Definition arrayIndex (k : jsstring) : option N :=
  match k with
  | [] => None
  | [c] => decimal 0 [c]
  | c :: _ =>
      if c =? 48 then None
      else match decimal 0 k with
           | Some n => if n <=? 4294967294 then Some n else None
           | None => None
           end
  end.

Fixpoint insertByIndex {V} (i : N) (p : jsstring * V)
    (l : list (N * (jsstring * V))) : list (N * (jsstring * V)) :=
  match l with
  | [] => [(i, p)]
  | (j, q) :: t =>
      if i <=? j then (i, p) :: l else (j, q) :: insertByIndex i p t
  end.

(** The own properties in the order [Object.keys] and [Object.values]
    visit them: array indices first, ascending, then the other keys in the
    order of creation. *)
Fixpoint indexed {V} (o : Obj V) : list (N * (jsstring * V)) :=
  match o with
  | [] => []
  | p :: t =>
      match arrayIndex (fst p) with
      | Some i => insertByIndex i p (indexed t)
      | None => indexed t
      end
  end.

Definition named {V} (o : Obj V) : Obj V :=
  List.filter (fun p => match arrayIndex (fst p) with
                        | Some _ => false
                        | None => true
                        end) o.

Definition entries {V} (o : Obj V) : Obj V := map snd (indexed o) ++ named o.

Definition keys {V} (o : Obj V) : list jsstring := map fst (entries o).

Definition values {V} (o : Obj V) : list V := map snd (entries o).

(** The loop over the selected files: each is required and called, and
    its model registered under its name.  The files required so far, and
    the registry or the error that ended the loop. *)
Fixpoint loadAll (load : jsstring -> JsError + ModelDef)
    (files : list jsstring) (db : Obj ModelDef)
  : list jsstring * (JsError + Obj ModelDef) :=
  match files with
  | [] => ([], inr db)
  | file :: rest =>
      match load file with
      | inl e => ([file], inl e)
      | inr model =>
          let '(required, r) := loadAll load rest (put (name model) model db) in
          (file :: required, r)
      end
  end.

(** The loop over the registered models: [associate] is called on those
    that have one, with the registry.  The calls made (the model and the
    names it was shown), and the error that ended the loop, if any. *)
Fixpoint associateAll (db : list jsstring) (models : list ModelDef)
  : list (jsstring * list jsstring) * option JsError :=
  match models with
  | [] => ([], None)
  | model :: rest =>
      match associate model with
      | None => associateAll db rest
      | Some f =>
          match f db with
          | Some e => ([(name model, db)], Some e)
          | None =>
              let '(calls, r) := associateAll db rest in
              ((name model, db) :: calls, r)
          end
      end
  end.

(** What the exported object holds under a key. *)
Inductive Export : Type :=
| IsModel (model : ModelDef)
| IsConnection
| IsSequelize.

Record Loaded : Type := mkLoaded {
  required : list jsstring;
  associated : list (jsstring * list jsstring);
  exports : JsError + Obj Export
}.

(** The module from the listing of its directory on, given the name of its
    own file, the entries of the directory, and what requiring and calling
    each file gives. *)
Definition init (basename : jsstring) (load : jsstring -> JsError + ModelDef)
    (dir : list jsstring) : Loaded :=
  let '(required, r) :=
    loadAll load (List.filter (isModelFile basename) dir) [] in
  match r with
  | inl e => mkLoaded required [] (inl e)
  | inr db =>
      let '(calls, r') := associateAll (keys db) (values db) in
      match r' with
      | Some e => mkLoaded required calls (inl e)
      | None =>
          mkLoaded required calls
            (inr (put (js "Sequelize") IsSequelize
                    (put (js "sequelize") IsConnection
                       (map (fun p => (fst p, IsModel (snd p))) db))))
      end
  end.

(** The models the selected files give, in the order of the files. *)
Definition modelsOf (load : jsstring -> JsError + ModelDef)
    (files : list jsstring) : list ModelDef :=
  omap (fun file => match load file with
                    | inr model => Some model
                    | inl _ => None
                    end) files.

Definition register (db : Obj ModelDef) (model : ModelDef) : Obj ModelDef :=
  put (name model) model db.

(** The registry keeps one property per name, each model under its own
    name, and none under "__proto__". *)
Definition wellKeyed (db : Obj ModelDef) : Prop :=
  NoDup (map fst db)
  /\ Forall (fun p => name (snd p) = fst p /\ fst p <> js "__proto__") db.

End Models.


(** A directory of models to try the registry on. *)
Definition contatoModel : Models.ModelDef :=
  Models.mkModel (js "Contato") None.

Definition userModel : Models.ModelDef :=
  Models.mkModel (js "User")
    (Some (fun db => if bool_decide (js "Contato" ∈ db) then None
                     else Some (mkError (js "TypeError")
                                        (js "Contato is not defined")))).

Definition sampleLoad (file : jsstring) : JsError + Models.ModelDef :=
  if bool_decide (file = js "contato.js") then inr contatoModel
  else if bool_decide (file = js "user.js") then inr userModel
  else if bool_decide (file = js "legacy.js") then
    inr (Models.mkModel (js "Contato") (Some (fun _ => None)))
  else inl (mkError (js "SyntaxError") (js "Unexpected token")).

Definition sampleDir : list jsstring :=
  [js "README.md"; js "contato.test.js"; js "index.js"; js "legacy.js";
   js "contato.js"; js "user.js"].

(** A loader that differs from [sampleLoad] outside the selection only. *)
Definition otherLoad (file : jsstring) : JsError + Models.ModelDef :=
  if Models.isModelFile (js "index.js") file then sampleLoad file
  else inr userModel.

(** What the registry exports for this directory. *)
Definition sampleExports : Models.Obj Models.Export :=
  match Models.exports (Models.init (js "index.js") sampleLoad sampleDir) with
  | inr db => db
  | inl _ => []
  end.

(** * Properties *)

(** ** Patterns: the matcher decides the language *)

Section RegexTheory.

Lemma nullable_lang r : nullable r = true <-> lang r [].
Proof.
  induction r as [| |n rs|a IHa b IHb|a IHa b IHb|a IHa|a IHa b IHb|a IHa];
    simpl.
  - split; [discriminate | tauto].
  - tauto.
  - split; [discriminate | intros (c & Hc & _); discriminate].
  - rewrite andb_true_iff, IHa, IHb. split.
    + intros [Ha Hb]. exists [], []. auto.
    + intros (s1 & s2 & Hs & Ha & Hb).
      symmetry in Hs. apply app_eq_nil in Hs as [-> ->]. auto.
  - rewrite orb_true_iff, IHa, IHb. tauto.
  - split; [intros _; constructor | reflexivity].
  - rewrite andb_true_iff, IHa, IHb. tauto.
  - rewrite negb_true_iff, <- not_true_iff_false, IHa. tauto.
Qed.

Lemma star_of_cons (L : jsstring -> Prop) c s :
  star_of L (c :: s) ->
  exists s1 s2, s = s1 ++ s2 /\ L (c :: s1) /\ star_of L s2.
Proof.
  intros Hs. remember (c :: s) as w eqn:Hw.
  induction Hs as [|s1 s2 H1 H2 IH]; [discriminate|].
  destruct s1 as [|x s1]; simpl in Hw.
  - auto.
  - injection Hw as -> <-. eauto.
Qed.

Lemma deriv_lang c r : forall s, lang (deriv c r) s <-> lang r (c :: s).
Proof.
  induction r as [| |n rs|a IHa b IHb|a IHa b IHb|a IHa|a IHa b IHb|a IHa];
    intros s; simpl.
  - tauto.
  - split; [tauto | discriminate].
  - destruct (in_class n rs c) eqn:Hc; simpl.
    + split.
      * intros ->. eauto.
      * intros (x & Hx & _). injection Hx as _ ->. reflexivity.
    + split; [tauto|].
      intros (x & Hx & Hin). injection Hx as <- _. congruence.
  - assert (Hcat : (exists s1 s2, s = s1 ++ s2 /\ lang (deriv c a) s1 /\ lang b s2)
                   <-> (exists s1 s2, c :: s = (c :: s1) ++ s2
                                      /\ lang a (c :: s1) /\ lang b s2)).
    { split; intros (s1 & s2 & Hs & Ha & Hb); exists s1, s2.
      - rewrite <- IHa. subst. auto.
      - rewrite IHa. simpl in Hs. injection Hs as ->. auto. }
    destruct (nullable a) eqn:Hn; simpl; rewrite Hcat.
    + split.
      * intros [(s1 & s2 & Hs & Ha & Hb) | Hb]; [eauto|].
        exists [], (c :: s). rewrite <- nullable_lang, <- IHb. auto.
      * intros (s1 & s2 & Hs & Ha & Hb). destruct s1 as [|x s1]; simpl in Hs.
        -- right. rewrite IHb. congruence.
        -- left. injection Hs as <- ->. exists s1, s2. auto.
    + split.
      * intros (s1 & s2 & Hs & Ha & Hb). eauto.
      * intros (s1 & s2 & Hs & Ha & Hb). destruct s1 as [|x s1]; simpl in Hs.
        -- apply nullable_lang in Ha. congruence.
        -- injection Hs as <- ->. exists s1, s2. auto.
  - rewrite IHa, IHb. tauto.
  - split.
    + intros (s1 & s2 & -> & Ha & Hs). apply IHa in Ha.
      change (c :: s1 ++ s2) with ((c :: s1) ++ s2). constructor; assumption.
    + intros Hs. apply star_of_cons in Hs as (s1 & s2 & -> & H1 & H2).
      exists s1, s2. rewrite IHa. auto.
  - rewrite IHa, IHb. tauto.
  - rewrite IHa. tauto.
Qed.

Lemma matches_lang r s : matches r s = true <-> lang r s.
Proof.
  revert r. induction s as [|c s IH]; intros r; simpl.
  - apply nullable_lang.
  - rewrite IH. apply deriv_lang.
Qed.

(** Patterns with the same language are interchangeable for [matches]. *)
Lemma matches_ext r1 r2 :
  (forall s, lang r1 s <-> lang r2 s) -> forall s, matches r1 s = matches r2 s.
Proof.
  intros Hl s. apply eq_true_iff_eq. rewrite !matches_lang. apply Hl.
Qed.

Lemma matches_cat_assoc a b c s :
  matches (Cat (Cat a b) c) s = matches (Cat a (Cat b c)) s.
Proof.
  apply matches_ext. clear s. intros s. simpl. split.
  - intros (s12 & s3 & -> & (s1 & s2 & -> & Ha & Hb) & Hc).
    exists s1, (s2 ++ s3). rewrite <- app_assoc. eauto 8.
  - intros (s1 & s23 & -> & Ha & s2 & s3 & -> & Hb & Hc).
    exists (s1 ++ s2), s3. rewrite <- app_assoc. eauto 8.
Qed.

Lemma matches_cat_eps_l r s : matches (Cat Eps r) s = matches r s.
Proof.
  apply matches_ext. clear s. intros s. simpl. split.
  - intros (s1 & s2 & -> & -> & Hr). exact Hr.
  - intros Hr. exists [], s. auto.
Qed.

Lemma matches_cat_void_l r s : matches (Cat Void r) s = false.
Proof.
  apply not_true_iff_false. rewrite matches_lang. simpl.
  intros (s1 & s2 & _ & [] & _).
Qed.

(** One code unit of a class, then the rest. *)
Lemma matches_cat_cls n rs r s :
  matches (Cat (Cls n rs) r) s =
  match s with
  | [] => false
  | c :: t => in_class n rs c && matches r t
  end.
Proof.
  destruct s as [|c t]; simpl; [reflexivity|].
  destruct (in_class n rs c); simpl.
  - apply matches_cat_eps_l.
  - apply matches_cat_void_l.
Qed.

Lemma matches_eps s : matches Eps s = match s with [] => true | _ => false end.
Proof.
  destruct s as [|c t]; simpl; [reflexivity|].
  apply not_true_iff_false. rewrite matches_lang. simpl. tauto.
Qed.

End RegexTheory.

(** ** The phone pattern *)

Lemma digit_class c : in_class false [(48, 57)] c = is_digit c.
Proof. unfold in_class, in_ranges, is_digit. simpl. now rewrite orb_false_r. Qed.

Lemma unit_class k c : in_class false [(k, k)] c = (c =? k).
Proof.
  unfold in_class, in_ranges. simpl. rewrite orb_false_r.
  apply eq_true_iff_eq.
  rewrite andb_true_iff, !N.leb_le, N.eqb_eq. lia.
Qed.

(** One step through a sequence of single code units. *)
Ltac step_unit s :=
  repeat first [rewrite matches_cat_assoc | rewrite matches_cat_eps_l];
  rewrite matches_cat_cls;
  destruct s as [|? s]; [now rewrite ?andb_false_r |];
  rewrite ?digit_class, ?unit_class.

(** The pattern of the schema accepts exactly the phone format. *)
Lemma telefoneRegex_shape s : matches telefoneRegex s = phone_shape s.
Proof.
  let r := eval vm_compute in telefoneRegex in change telefoneRegex with r.
  unfold phone_shape.
  do 15 step_unit s.
  rewrite ?matches_cat_eps_l, matches_eps.
  destruct s; rewrite ?andb_false_r, ?andb_true_r, ?andb_assoc; reflexivity.
Qed.

(** ** The validator *)

Section ValidatorTheory.
Context {zod : Zod}.

Ltac string_case v s :=
  destruct v as [| | | |s| |]; [reflexivity..| |reflexivity|reflexivity];
  cbn [parseString checks z.min z.email z.regex z.string Datatypes.app
       omap list_omap runCheck].

Lemma parse_nome v :
  parseString (z.string (Some (js "Campo nome é obrigatório"))
                 .> z.min 3 (js "O nome deve ter no mínimo 03 caracteres.")) v
  = name_errors v.
Proof.
  string_case v s. unfold name_errors.
  destruct (length s <? 3)%nat; reflexivity.
Qed.

Lemma parse_email v :
  parseString (z.string (Some (js "Campo e-mail é obrigatório."))
                 .> z.email (js "Deve ser um e-mail válido.")) v
  = email_errors v.
Proof.
  string_case v s. unfold email_errors.
  destruct (isEmail s); reflexivity.
Qed.

Lemma parse_telefone v :
  parseString (z.string None
                 .> z.regex telefoneRegex (js "Deve enviar um telefone válido")) v
  = phone_errors v.
Proof.
  string_case v s. unfold phone_errors.
  rewrite telefoneRegex_shape.
  destruct (phone_shape s); reflexivity.
Qed.

Lemma messages_of_issues (issues : list ZodIssue) data :
  messages match issues with [] => Success data | _ :: _ => Failure issues end
  = map message issues.
Proof. destruct issues; reflexivity. Qed.

Lemma message_mkIssue p (l : list jsstring) : map message (map (mkIssue p) l) = l.
Proof. induction l as [|x l IH]; simpl; congruence. Qed.

(** On an object, the messages are those of the name, then those of the
    e-mail, then those of the phone. *)
Lemma safeParse_object_messages props :
  messages (safeParse contatoSchema (JObject props)) =
  name_errors (prop props (js "nome"))
  ++ email_errors (prop props (js "email"))
  ++ phone_errors (prop props (js "telefone")).
Proof.
  unfold safeParse, parseObject, contatoSchema, z.object.
  cbn [flat_map].
  rewrite (parse_nome (prop props (js "nome"))).
  rewrite (parse_email (prop props (js "email"))).
  rewrite (parse_telefone (prop props (js "telefone"))).
  rewrite messages_of_issues, app_nil_r, !map_app, !message_mkIssue.
  reflexivity.
Qed.

Lemma name_errors_nil v : name_errors v = [] <-> name_ok v = true.
Proof.
  destruct v as [| | | |s| |]; unfold name_errors, name_ok;
    try (split; discriminate).
  rewrite Nat.leb_le. destruct (Nat.ltb_spec (length s) 3); split;
    (discriminate || lia || reflexivity).
Qed.

Lemma email_errors_nil v : email_errors v = [] <-> email_ok v = true.
Proof.
  destruct v as [| | | |s| |]; simpl; try (split; discriminate).
  destruct (isEmail s); split; (discriminate || reflexivity).
Qed.

Lemma phone_errors_nil v : phone_errors v = [] <-> phone_ok v = true.
Proof.
  destruct v as [| | | |s| |]; simpl; try (split; discriminate).
  destruct (phone_shape s); split; (discriminate || reflexivity).
Qed.

(** The validation succeeds exactly on the bodies whose three fields pass. *)
Lemma safeParse_messages_nil reqBody :
  messages (safeParse contatoSchema reqBody) = [] <-> passes reqBody = true.
Proof.
  unfold passes.
  destruct reqBody as [| | | | | |props];
    try (split; discriminate).
  rewrite safeParse_object_messages. cbn [field].
  rewrite !andb_true_iff, <- name_errors_nil, <- email_errors_nil,
    <- phone_errors_nil.
  split.
  - intros Hm. apply app_eq_nil in Hm as [Hn Hm].
    apply app_eq_nil in Hm as [He Hp]. auto.
  - intros [[-> ->] ->]. reflexivity.
Qed.

Lemma safeParse_verdict reqBody :
  match safeParse contatoSchema reqBody with
  | Success _ => passes reqBody = true
  | Failure issues => passes reqBody = false /\ issues <> []
  end.
Proof.
  pose proof (safeParse_messages_nil reqBody) as Hm.
  destruct (safeParse contatoSchema reqBody) as [data|issues] eqn:Hr.
  - apply Hm. reflexivity.
  - assert (issues <> []) as Hne.
    { intros ->. destruct reqBody; try discriminate.
      unfold safeParse, parseObject in Hr.
      destruct (flat_map _ _); discriminate. }
    split; [|exact Hne].
    apply not_true_iff_false. rewrite <- Hm. simpl.
    destruct issues; [congruence | discriminate].
Qed.

End ValidatorTheory.

(** ** The handlers *)

Section HandlerTheory.
Context {Store Disk : Type} {zod : Zod} {router : Express}
        {model : Model Store} {fs : NodeFs Disk}.

Implicit Types w : World Store Disk.

(** The submit handler on a body the validation rejects. *)
Lemma postRoot_rejected reqBody issues w :
  safeParse contatoSchema reqBody = Failure issues ->
  res w = fresh ->
  postRoot reqBody w =
  (Returned tt,
   mkWorld (badRequest (map message issues)) (console w) (db w) (calls w)
           (disk w)).
Proof.
  intros Hr Hw. unfold postRoot. rewrite Hr.
  unfold bind, res_status, res_send, res_write, set_res. simpl.
  rewrite Hw. reflexivity.
Qed.

(** The submit handler on a body the validation accepts: one call of
    [create], with the three submitted values, then the confirmation if the
    call resolves and a rejection with the store's error if it rejects. *)
Lemma postRoot_accepted reqBody data w :
  safeParse contatoSchema reqBody = Success data ->
  res w = fresh ->
  postRoot reqBody w =
  let '(r, db') := Contato_create (attrsOf reqBody) (db w) in
  let cs := calls w ++ [CallCreate (attrsOf reqBody)] in
  match r with
  | inl e => (Thrown e, mkWorld fresh (console w) db' cs (disk w))
  | inr _ => (Returned tt, mkWorld saved (console w) db' cs (disk w))
  end.
Proof.
  intros Hr Hw. unfold postRoot. rewrite Hr.
  destruct reqBody as [| | | | | |props];
    try (unfold safeParse, parseObject in Hr; discriminate).
  unfold bind, get, ret, await_create, res_send, res_write, set_res, attrsOf.
  cbn [field]. 
  destruct (Contato_create _ (db w)) as [[e|row] db']; simpl; rewrite Hw; reflexivity.
Qed.

(** The list handler. *)
Lemma getContatos_run w :
  res w = fresh ->
  getContatos w =
  let '(r, db') := Contato_findAll (db w) in
  let cs := calls w ++ [CallFindAll] in
  match r with
  | inl e =>
      (Returned tt,
       mkWorld listFailed
               (console w ++ [(js "Erro ao buscar contatos:", e)]) db' cs
               (disk w))
  | inr contatos =>
      (Returned tt, mkWorld (listed contatos) (console w) db' cs (disk w))
  end.
Proof.
  intros Hw.
  unfold getContatos, try_catch, bind, await_findAll, res_render, res_send,
    res_status, res_write, set_res, console_error.
  destruct (Contato_findAll (db w)) as [[e|contatos] db']; simpl;
    rewrite Hw; reflexivity.
Qed.

(** None of the three handlers touches the file system. *)
Ltac blind :=
  unfold disk_blind, with_disk; intros;
  repeat (unfold bind, try_catch, ret, throw, get, res_status, res_send,
            res_render, res_write, set_res, console_error, await_create,
            await_findAll; simpl);
  repeat match goal with
         | |- context [payload ?r] => destruct (payload r); simpl
         | |- context [Contato_create ?a ?d] =>
             destruct (Contato_create a d) as [[?|?] ?]; simpl
         | |- context [Contato_findAll ?d] =>
             destruct (Contato_findAll d) as [[?|?] ?]; simpl
         end;
  try reflexivity.

Lemma getRoot_disk_blind :
  disk_blind (Store := Store) (Disk := Disk) getRoot.
Proof. unfold getRoot. blind. Qed.

Lemma postRoot_disk_blind reqBody :
  disk_blind (Store := Store) (Disk := Disk) (postRoot reqBody).
Proof.
  unfold postRoot. destruct (safeParse contatoSchema reqBody); [|blind].
  destruct reqBody; blind.
Qed.

Lemma getContatos_disk_blind :
  disk_blind (Store := Store) (Disk := Disk) getContatos.
Proof. unfold getContatos. blind. Qed.

Lemma ret_disk_blind : disk_blind (ret (Store := Store) (Disk := Disk) tt).
Proof. blind. Qed.

(** The logger around a handler that does not touch the file system: the
    handler runs as if there were no logger, and the only trace of a failed
    append is one line on the console. *)
Lemma logger_run now req (next : M unit) w :
  disk_blind next ->
  logger now req next w =
  let '(err, d') :=
    appendFile (path_join dirname (js "access.log")) (logEntry now req)
               (disk w) in
  let w1 := snd (next w) in
  (fst (next w),
   mkWorld (res w1)
           (console w1 ++ match err with
                          | Some e =>
                              [(js "Erro ao escrever no arquivo de log:", e)]
                          | None => []
                          end)
           (db w1) (calls w1) d').
Proof.
  intros Hb. unfold logger.
  destruct (appendFile _ _ (disk w)) as [err d'].
  change (mkWorld (res w) (console w) (db w) (calls w) d') with (with_disk d' w).
  rewrite Hb. destruct err; simpl; [reflexivity|].
  rewrite app_nil_r. reflexivity.
Qed.

Lemma dispatch_disk_blind req :
  disk_blind (Store := Store) (Disk := Disk) (dispatch req).
Proof.
  unfold dispatch. destruct (route _ _) as [[| |]|].
  - apply getRoot_disk_blind.
  - apply postRoot_disk_blind.
  - apply getContatos_disk_blind.
  - apply ret_disk_blind.
Qed.

(** What a successful validation hands back: the three fields as they were
    submitted, and nothing else. *)
Lemma keys_distinct :
  js "nome" <> js "email" /\ js "nome" <> js "telefone"
  /\ js "email" <> js "telefone".
Proof. repeat split; vm_compute; discriminate. Qed.

Lemma safeParse_data props data k :
  safeParse contatoSchema (JObject props) = Success data ->
  data !! k =
  if decide (k = js "nome" \/ k = js "email" \/ k = js "telefone")
  then props !! k else None.
Proof.
  destruct keys_distinct as (Hne & Hnt & Het).
  unfold safeParse, parseObject, contatoSchema, z.object.
  cbn [fold_right]. destruct (flat_map _ _); [|discriminate].
  intros [= <-].
  case_decide as Hk.
  - destruct Hk as [-> | [-> | ->]];
      destruct (props !! js "nome") eqn:Hn, (props !! js "email") eqn:He,
        (props !! js "telefone") eqn:Ht;
      simplify_map_eq; reflexivity.
  - assert (js "nome" <> k /\ js "email" <> k /\ js "telefone" <> k)
      as (H1 & H2 & H3) by (repeat split; intros <-; tauto).
    destruct (props !! js "nome"), (props !! js "email"),
      (props !! js "telefone");
      simplify_map_eq; reflexivity.
Qed.

End HandlerTheory.

(** ** The claims of the specification *)

Section Claims.
Context {Store Disk : Type} {zod : Zod} {router : Express}
        {model : Model Store} {fs : NodeFs Disk}.

Implicit Types w : World Store Disk.

(** C1.  What the submit handler does when the body passes validation and
    the store's create fails: the call is not guarded, so the error of the
    store leaves the handler as it is (the promise of the handler rejects
    with it), and the handler has written nothing to the response: no
    status 500, no message.  The list handler, next to it, does catch the
    error of its call and answers 500 with a fixed message. *)
Theorem submit_storage_failure_escapes reqBody w e db' :
  res w = fresh ->
  passes reqBody = true ->
  Contato_create (attrsOf reqBody) (db w) = (inl e, db') ->
  postRoot reqBody w =
  (Thrown e,
   mkWorld fresh (console w) db' (calls w ++ [CallCreate (attrsOf reqBody)])
           (disk w)).
Proof.
  intros Hw Hp Hc. pose proof (safeParse_verdict reqBody) as Hv.
  destruct (safeParse contatoSchema reqBody) as [data|issues] eqn:Hr;
    [|destruct Hv; congruence].
  rewrite (postRoot_accepted reqBody data w Hr Hw), Hc. reflexivity.
Qed.

(** C2.  A submitted body in which the name is absent, not a string or
    shorter than 3 characters, or the e-mail is absent, not a string or not
    valid, or the phone is not of the phone format, is answered with status
    400 and the joined messages, without any call of the store: the store
    and the list of its calls are as they were.  Conversely, a submission
    after which the store or its call list differs had all three fields
    pass. *)
Theorem submit_invalid_never_creates reqBody w :
  res w = fresh ->
  (passes reqBody = false ->
   exists erros,
     erros <> [] /\
     postRoot reqBody w =
     (Returned tt,
      mkWorld (badRequest erros) (console w) (db w) (calls w) (disk w)))
  /\ (calls (snd (postRoot reqBody w)) <> calls w
      \/ db (snd (postRoot reqBody w)) <> db w ->
      passes reqBody = true).
Proof.
  intros Hw.
  assert (Hbad : passes reqBody = false ->
                 exists erros,
                   erros <> [] /\
                   postRoot reqBody w =
                   (Returned tt,
                    mkWorld (badRequest erros) (console w) (db w) (calls w)
                            (disk w))).
  { intros Hp. pose proof (safeParse_verdict reqBody) as Hv.
    destruct (safeParse contatoSchema reqBody) as [data|issues] eqn:Hr.
    - congruence.
    - exists (map message issues). split.
      + destruct Hv as [_ Hne]. destruct issues; [congruence | discriminate].
      + apply postRoot_rejected; assumption. }
  split; [exact Hbad|].
  intros Hch. destruct (passes reqBody) eqn:Hp; [reflexivity|].
  destruct (Hbad eq_refl) as (erros & _ & Hrun).
  rewrite Hrun in Hch. simpl in Hch. tauto.
Qed.

(** C3.  A submitted body whose three fields pass validation makes the
    handler call the store's create exactly once, with the name, phone and
    e-mail exactly as validated (the values the validation hands back are
    the submitted ones), and when that call succeeds the answer is status
    200 with the success message. *)
Theorem submit_valid_creates_once reqBody w :
  res w = fresh ->
  passes reqBody = true ->
  exists data,
    safeParse contatoSchema reqBody = Success data
    /\ attrsOf reqBody =
       mkAttrs (prop data (js "nome")) (prop data (js "telefone"))
               (prop data (js "email"))
    /\ (exists n t e,
          attrsOf reqBody = mkAttrs (JString n) (JString t) (JString e))
    /\ calls (snd (postRoot reqBody w)) =
       calls w ++ [CallCreate (attrsOf reqBody)]
    /\ forall row db',
         Contato_create (attrsOf reqBody) (db w) = (inr row, db') ->
         postRoot reqBody w =
         (Returned tt,
          mkWorld saved (console w) db'
                  (calls w ++ [CallCreate (attrsOf reqBody)]) (disk w)).
Proof.
  intros Hw Hp. pose proof (safeParse_verdict reqBody) as Hv.
  destruct (safeParse contatoSchema reqBody) as [data|issues] eqn:Hr;
    [|destruct Hv; congruence].
  exists data. split; [reflexivity|].
  pose proof (postRoot_accepted reqBody data w Hr Hw) as Hrun.
  destruct reqBody as [| | | | | |props]; try discriminate.
  repeat split.
  - unfold attrsOf, field, prop.
    rewrite !(safeParse_data props data _ Hr).
    repeat (case_decide; [|tauto]). reflexivity.
  - unfold passes, name_ok, email_ok, phone_ok in Hp. unfold attrsOf.
    destruct (field _ (js "nome")); try discriminate.
    destruct (field _ (js "email")); try (rewrite andb_false_r in Hp; discriminate).
    destruct (field _ (js "telefone")); try (rewrite andb_false_r in Hp; discriminate).
    eauto.
  - rewrite Hrun.
    destruct (Contato_create _ (db w)) as [[e|row] db']; reflexivity.
  - intros row db' Hc. rewrite Hrun, Hc. reflexivity.
Qed.

(** C4.  On an object the validator reports the errors of every field that
    fails, the name's first, then the e-mail's, then the phone's; and the
    body with name "Al", e-mail "bad" and phone "123" gets exactly three
    messages, name length, e-mail format, phone format, which the 400
    answer joins with "; " (given that the library's e-mail check rejects
    "bad"). *)
Theorem errors_collected_in_order props w :
  isEmail (js "bad") = false ->
  res w = fresh ->
  messages (safeParse contatoSchema (JObject props)) =
    name_errors (prop props (js "nome"))
    ++ email_errors (prop props (js "email"))
    ++ phone_errors (prop props (js "telefone"))
  /\ messages (safeParse contatoSchema (form "Al" "bad" "123")) =
     [js "O nome deve ter no mínimo 03 caracteres.";
      js "Deve ser um e-mail válido.";
      js "Deve enviar um telefone válido"]
  /\ postRoot (form "Al" "bad" "123") w =
     (Returned tt,
      mkWorld
        (mkResponse 400
           (Some (Text (js "O nome deve ter no mínimo 03 caracteres."
                        ++ js "; " ++ js "Deve ser um e-mail válido."
                        ++ js "; " ++ js "Deve enviar um telefone válido"))))
        (console w) (db w) (calls w) (disk w)).
Proof.
  intros Hbad Hw.
  assert (Hm : messages (safeParse contatoSchema (form "Al" "bad" "123")) =
               [js "O nome deve ter no mínimo 03 caracteres.";
                js "Deve ser um e-mail válido.";
                js "Deve enviar um telefone válido"]).
  { unfold form. rewrite safeParse_object_messages.
    replace (prop _ (js "nome")) with (JString (js "Al")) by (vm_compute; reflexivity).
    replace (prop _ (js "email")) with (JString (js "bad")) by (vm_compute; reflexivity).
    replace (prop _ (js "telefone")) with (JString (js "123")) by (vm_compute; reflexivity).
    unfold name_errors, email_errors, phone_errors. rewrite Hbad.
    reflexivity. }
  split; [apply safeParse_object_messages|].
  split; [exact Hm|].
  destruct (safeParse contatoSchema (form "Al" "bad" "123")) as [data|issues] eqn:Hr;
    [discriminate|].
  rewrite (postRoot_rejected _ issues w Hr Hw).
  simpl in Hm. rewrite Hm. reflexivity.
Qed.

(** C5.  The phone check is a match of the whole string against the
    pattern, without trimming: the pattern matches a string exactly when it
    has the phone format, so a body whose phone is a string of any other
    shape fails validation with the phone message; "11 91234-5678" and
    "(11) 9123-45678" are rejected, and so is a well-formed number with a
    space before it, or with a space or a line feed after it. *)
Theorem telefone_exact_match props s :
  props !! js "telefone" = Some (JString s) ->
  phone_shape s = false ->
  matches telefoneRegex s = false
  /\ (exists issues,
        safeParse contatoSchema (JObject props) = Failure issues
        /\ In (js "Deve enviar um telefone válido") (map message issues))
  /\ (forall s', matches telefoneRegex s' = phone_shape s')
  /\ matches telefoneRegex (js "11 91234-5678") = false
  /\ matches telefoneRegex (js "(11) 9123-45678") = false
  /\ matches telefoneRegex (js " (11) 91234-5678") = false
  /\ matches telefoneRegex (js "(11) 91234-5678 ") = false
  /\ matches telefoneRegex (js "(11) 91234-5678" ++ [10]) = false
  /\ matches telefoneRegex (js "(11) 91234-5678") = true.
Proof.
  intros Hs Hshape.
  split; [rewrite telefoneRegex_shape; exact Hshape|].
  split.
  - pose proof (safeParse_object_messages props) as Hm.
    assert (Hp : prop props (js "telefone") = JString s)
      by (unfold prop; rewrite Hs; reflexivity).
    rewrite Hp in Hm. cbn [phone_errors] in Hm. rewrite Hshape in Hm.
    destruct (safeParse contatoSchema (JObject props)) as [data|issues].
    + simpl in Hm. symmetry in Hm.
      apply app_eq_nil in Hm as [_ Hm]. apply app_eq_nil in Hm as [_ Hm].
      discriminate.
    + exists issues. split; [reflexivity|].
      simpl in Hm. rewrite Hm. rewrite !in_app_iff. right. right. left.
      reflexivity.
  - split; [exact telefoneRegex_shape|].
    repeat split; vm_compute; reflexivity.
Qed.

(** C6.  The list handler has no input.  It calls the store's findAll
    (once); when the call succeeds it renders the view of the contacts with
    all the contacts returned; when the call fails it writes the error to
    the console and answers status 500 with a fixed message, in which the
    error does not appear. *)
Theorem list_contacts_handler w :
  res w = fresh ->
  calls (snd (getContatos w)) = calls w ++ [CallFindAll]
  /\ (forall contatos db',
        Contato_findAll (db w) = (inr contatos, db') ->
        getContatos w =
        (Returned tt,
         mkWorld (listed contatos) (console w) db' (calls w ++ [CallFindAll])
                 (disk w)))
  /\ (forall e db',
        Contato_findAll (db w) = (inl e, db') ->
        getContatos w =
        (Returned tt,
         mkWorld listFailed
                 (console w ++ [(js "Erro ao buscar contatos:", e)]) db'
                 (calls w ++ [CallFindAll]) (disk w))).
Proof.
  intros Hw. rewrite (getContatos_run w Hw).
  repeat split.
  - destruct (Contato_findAll (db w)) as [[e|contatos] db']; reflexivity.
  - intros contatos db' ->. reflexivity.
  - intros e db' ->. reflexivity.
Qed.

(** C7.  Whether the append to the access log succeeds or fails, the
    request goes on to its handler and ends the same way: the outcome, the
    status and body of the response, the store and its calls are identical.
    They are those of the routed handler run on its own.  The failure shows
    in one place only: the console has one more line, the report of the
    error of the append. *)
Theorem log_failure_suppressed now req w dOk dOk' dFail dFail' e :
  appendFile (path_join dirname (js "access.log")) (logEntry now req) dOk
    = (None, dOk') ->
  appendFile (path_join dirname (js "access.log")) (logEntry now req) dFail
    = (Some e, dFail') ->
  let ok := app now req (with_disk dOk w) in
  let failed := app now req (with_disk dFail w) in
  fst failed = fst ok
  /\ res (snd failed) = res (snd ok)
  /\ db (snd failed) = db (snd ok)
  /\ calls (snd failed) = calls (snd ok)
  /\ fst ok = fst (dispatch req (renew w))
  /\ res (snd ok) = res (snd (dispatch req (renew w)))
  /\ Permutation (console (snd failed))
       ((js "Erro ao escrever no arquivo de log:", e) :: console (snd ok)).
Proof.
  intros Hok Hfail ok failed. subst ok failed. unfold app.
  rewrite !logger_run by apply dispatch_disk_blind.
  change (disk (renew (with_disk dOk w))) with dOk.
  change (disk (renew (with_disk dFail w))) with dFail.
  rewrite Hok, Hfail.
  change (renew (with_disk dOk w)) with (with_disk dOk (renew w)).
  change (renew (with_disk dFail w)) with (with_disk dFail (renew w)).
  rewrite !(dispatch_disk_blind req). cbn [fst snd with_disk res db calls console].
  rewrite app_nil_r. repeat split.
  symmetry. apply Permutation_cons_append.
Qed.

(** C10.  The submit handler looks at the name, e-mail and phone of the
    body and at nothing else: two bodies with the same three fields, however
    they differ in other fields, get the same validation result, hand the
    same three values to the store's create, and, from the same state, end
    in the same outcome, response and state.  The store is called at most
    once, and what it is given is the record of the three fields: no other
    field of the body reaches it. *)
Theorem submit_ignores_extra_fields props1 props2 w :
  props1 !! js "nome" = props2 !! js "nome" ->
  props1 !! js "email" = props2 !! js "email" ->
  props1 !! js "telefone" = props2 !! js "telefone" ->
  safeParse contatoSchema (JObject props1)
    = safeParse contatoSchema (JObject props2)
  /\ attrsOf (JObject props1) = attrsOf (JObject props2)
  /\ postRoot (JObject props1) w = postRoot (JObject props2) w
  /\ (calls (snd (postRoot (JObject props1) w)) = calls w
      \/ calls (snd (postRoot (JObject props1) w)) =
         calls w ++ [CallCreate (mkAttrs (prop props1 (js "nome"))
                                         (prop props1 (js "telefone"))
                                         (prop props1 (js "email")))]).
Proof.
  intros Hn He Ht.
  assert (Hparse : safeParse contatoSchema (JObject props1)
                   = safeParse contatoSchema (JObject props2)).
  { unfold safeParse, parseObject, contatoSchema, z.object.
    cbn [flat_map fold_right]. unfold prop. rewrite Hn, He, Ht. reflexivity. }
  assert (Hattrs : attrsOf (JObject props1) = attrsOf (JObject props2)).
  { unfold attrsOf, field, prop. rewrite Hn, He, Ht. reflexivity. }
  split; [exact Hparse|]. split; [exact Hattrs|]. split.
  - unfold postRoot. rewrite Hparse.
    destruct (safeParse contatoSchema (JObject props2)); [|reflexivity].
    unfold get, prop. rewrite Hn, He, Ht. reflexivity.
  - unfold postRoot.
    destruct (safeParse contatoSchema (JObject props1)).
    + right.
      unfold bind, get, ret, await_create, res_send, res_write, set_res.
      destruct (Contato_create _ (db w)) as [[e|row] db']; simpl;
        [reflexivity|].
      destruct (payload (res w)); reflexivity.
    + left.
      unfold bind, res_status, res_send, res_write, set_res. simpl.
      destruct (payload (res w)); reflexivity.
Qed.

End Claims.

(** ** Over the table of the specification *)

Section TableTheory.
Context {zod : Zod}.

Implicit Types w : World Table Files.

Lemma table_create_ok attrs t :
  faults t = [] ->
  table_create attrs t =
  (inr (mkRow (nextId t) attrs (clock t) (clock t)),
   mkTable (rows t ++ [mkRow (nextId t) attrs (clock t) (clock t)])
           (nextId t + 1) (clock t + 1) []).
Proof. intros Hf. unfold table_create. rewrite Hf. reflexivity. Qed.

(** Accepted submissions over a table without storage failures: each is
    answered with the confirmation and adds its row at the end. *)
Lemma submitAll_stored bodies :
  forall w,
    faults (db w) = [] ->
    Forall (fun b => passes b = true) bodies ->
    fst (submitAll bodies w) = map (fun _ => saved) bodies
    /\ map row_attrs (rows (db (snd (submitAll bodies w)))) =
       map row_attrs (rows (db w)) ++ map attrsOf bodies
    /\ faults (db (snd (submitAll bodies w))) = [].
Proof.
  induction bodies as [|b rest IH]; intros w Hf Hall.
  - simpl. rewrite app_nil_r. auto.
  - inversion Hall as [|? ? Hb Hrest]; subst.
    pose proof (safeParse_verdict b) as Hv.
    destruct (safeParse contatoSchema b) as [data|issues] eqn:Hr;
      [|destruct Hv; congruence].
    pose proof (postRoot_accepted (model := tableModel) (Disk := Files)
                  b data (renew w) Hr eq_refl) as Hrun.
    cbn [Contato_create tableModel renew db] in Hrun.
    rewrite (table_create_ok _ _ Hf) in Hrun.
    cbn [submitAll]. rewrite Hrun. cbn [snd].
    destruct (submitAll rest _) as [rs w2] eqn:Hsub.
    specialize (IH (mkWorld saved (console w)
                      (mkTable (rows (db w) ++ [mkRow (nextId (db w)) (attrsOf b) (clock (db w)) (clock (db w))])
                               (nextId (db w) + 1) (clock (db w) + 1) [])
                      (calls w ++ [CallCreate (attrsOf b)]) (disk w))
                   eq_refl Hrest).
    cbn [renew res console db calls disk] in Hsub.
    unfold renew in IH. cbn [res console db calls disk] in IH.
    rewrite Hsub in IH. cbn [fst snd] in *.
    destruct IH as (Hrs & Hrows & Hfaults).
    cbn [db rows] in Hrows.
    repeat split.
    + cbn [map res]. rewrite Hrs. reflexivity.
    + rewrite Hrows, map_app, <- app_assoc. reflexivity.
    + exact Hfaults.
Qed.

(** C8.  Starting from an empty table, after N submissions that pass
    validation and are stored (each answered with status 200 and the
    success message), the list handler renders exactly N contacts, and the
    name, phone and e-mail of each are the values that were submitted for
    it, in the order of submission. *)
Theorem listing_round_trip bodies w :
  rows (db w) = [] ->
  faults (db w) = [] ->
  Forall (fun b => passes b = true) bodies ->
  Forall (eq saved) (fst (submitAll bodies w))
  /\ exists contatos,
      res (snd (getContatos (model := tableModel)
                  (renew (snd (submitAll bodies w)))))
        = listed contatos
      /\ length contatos = length bodies
      /\ map row_attrs contatos = map attrsOf bodies.
Proof.
  intros Hrows Hf Hall.
  destruct (submitAll_stored bodies w Hf Hall) as (Hrs & Hstored & Hfaults).
  split.
  - rewrite Hrs. clear. induction bodies; constructor; auto.
  - exists (rows (db (snd (submitAll bodies w)))).
    rewrite Hrows in Hstored. cbn [map Datatypes.app] in Hstored.
    split; [|split; [|exact Hstored]].
    + rewrite (getContatos_run (model := tableModel)
                 (renew (snd (submitAll bodies w))) eq_refl).
      cbn [Contato_findAll tableModel renew db]. unfold table_findAll.
      rewrite Hfaults. reflexivity.
    + rewrite <- (length_map row_attrs), Hstored, length_map. reflexivity.
Qed.

End TableTheory.

(** ** The claims at concrete inputs *)

Section Instances.

#[local] Existing Instances zod3 exactRouter tableModel filesFs.

Ltac run := vm_compute; reflexivity.

Example email_samples :
  map isEmail [js "ana@example.com"; js "A_b+c@x-y.example.ORG"; js "bad";
               js ".ana@example.com"; js "ana..silva@example.com";
               js "ana@example"; js "ana@example.c"]
  = [true; true; false; false; false; false; false].
Proof. run. Qed.

Example empty_object_messages :
  messages (safeParse contatoSchema (JObject ∅)) =
  [js "Campo nome é obrigatório"; js "Campo e-mail é obrigatório.";
   js "Required"].
Proof. run. Qed.

Example no_body_messages :
  messages (safeParse contatoSchema JUndefined) = [js "Required"].
Proof. run. Qed.

Example short_name_only :
  messages (safeParse contatoSchema
              (form "Al" "ana@example.com" "(11) 91234-5678"))
  = [js "O nome deve ter no mínimo 03 caracteres."].
Proof. run. Qed.

Example ana_silva_saved :
  postRoot anaSilva started =
  (Returned tt,
   mkWorld saved []
     (mkTable [mkRow 1 (mkAttrs (JString (js "Ana Silva"))
                                (JString (js "(11) 91234-5678"))
                                (JString (js "ana@example.com"))) 0 0]
              2 1 [])
     [CallCreate (attrsOf anaSilva)] (mkFiles ∅ [])).
Proof. run. Qed.

Example list_after_ana_silva :
  res (snd (app noon (mkRequest (js "GET") (js "/contatos") JUndefined)
              (snd (app noon (mkRequest (js "POST") (js "/") anaSilva)
                      started))))
  = listed [mkRow 1 (attrsOf anaSilva) 0 0].
Proof. run. Qed.

Lemma submit_storage_failure_escapes_witness :
  let w := boot (emptyTable [Some connectionLost]) (mkFiles ∅ []) in
  passes anaSilva = true
  /\ postRoot anaSilva w =
     (Thrown connectionLost,
      mkWorld fresh [] (emptyTable []) [CallCreate (attrsOf anaSilva)]
              (mkFiles ∅ []))
  /\ fst (app noon (mkRequest (js "POST") (js "/") anaSilva) w)
     = Thrown connectionLost
  /\ res (snd (app noon (mkRequest (js "POST") (js "/") anaSilva) w)) = fresh.
Proof.
  intros w. split; [run|]. split; [|split; run].
  apply (submit_storage_failure_escapes anaSilva w connectionLost
           (emptyTable [])); run.
Defined.

Lemma submit_invalid_never_creates_witness :
  passes (form "Al" "bad" "123") = false
  /\ exists erros,
       erros <> []
       /\ postRoot (form "Al" "bad" "123") started =
          (Returned tt, mkWorld (badRequest erros) [] (emptyTable []) []
                                (mkFiles ∅ [])).
Proof.
  split; [run|].
  apply (submit_invalid_never_creates (form "Al" "bad" "123") started);
    run.
Defined.

Lemma submit_valid_creates_once_witness :
  passes anaSilva = true
  /\ exists data,
       safeParse contatoSchema anaSilva = Success data
       /\ attrsOf anaSilva =
          mkAttrs (prop data (js "nome")) (prop data (js "telefone"))
                  (prop data (js "email"))
       /\ (exists n t e,
             attrsOf anaSilva = mkAttrs (JString n) (JString t) (JString e))
       /\ calls (snd (postRoot anaSilva started)) =
          [CallCreate (attrsOf anaSilva)]
       /\ forall row db',
            Contato_create (attrsOf anaSilva) (emptyTable []) = (inr row, db') ->
            postRoot anaSilva started =
            (Returned tt,
             mkWorld saved [] db' [CallCreate (attrsOf anaSilva)]
                     (mkFiles ∅ [])).
Proof.
  split; [run|].
  apply (submit_valid_creates_once anaSilva started); run.
Defined.

Lemma errors_collected_in_order_witness :
  isEmail (js "bad") = false
  /\ postRoot (form "Al" "bad" "123") started =
     (Returned tt,
      mkWorld
        (mkResponse 400
           (Some (Text (js "O nome deve ter no mínimo 03 caracteres."
                        ++ js "; " ++ js "Deve ser um e-mail válido."
                        ++ js "; " ++ js "Deve enviar um telefone válido"))))
        [] (emptyTable []) [] (mkFiles ∅ [])).
Proof.
  split; [run|].
  apply (errors_collected_in_order ∅ started); run.
Defined.

Lemma telefone_exact_match_witness :
  phone_shape (js "11 91234-5678") = false
  /\ exists issues,
       safeParse contatoSchema
         (form "Ana Silva" "ana@example.com" "11 91234-5678") = Failure issues
       /\ In (js "Deve enviar um telefone válido") (map message issues).
Proof.
  split; [run|].
  apply (telefone_exact_match
           (<[js "nome" := JString (js "Ana Silva")]>
              (<[js "email" := JString (js "ana@example.com")]>
                 (<[js "telefone" := JString (js "11 91234-5678")]> ∅)))
           (js "11 91234-5678")); run.
Defined.

Lemma list_contacts_handler_witness :
  let w := boot (emptyTable [Some connectionLost]) (mkFiles ∅ []) in
  getContatos w =
  (Returned tt,
   mkWorld listFailed [(js "Erro ao buscar contatos:", connectionLost)]
           (emptyTable []) [CallFindAll] (mkFiles ∅ [])).
Proof.
  intros w.
  apply (proj2 (proj2 (list_contacts_handler w eq_refl))). run.
Defined.

Lemma log_failure_suppressed_witness :
  let req := mkRequest (js "POST") (js "/") anaSilva in
  let ok := app noon req (with_disk (mkFiles ∅ []) started) in
  let failed := app noon req (with_disk (mkFiles ∅ [Some noSpace]) started) in
  fst failed = fst ok
  /\ res (snd failed) = res (snd ok)
  /\ res (snd ok) = saved
  /\ Permutation (console (snd failed))
       ((js "Erro ao escrever no arquivo de log:", noSpace)
          :: console (snd ok)).
Proof.
  intros req ok failed.
  destruct (log_failure_suppressed noon req started
              (mkFiles ∅ [])
              (snd (appendFile (path_join dirname (js "access.log"))
                      (logEntry noon req) (mkFiles ∅ [])))
              (mkFiles ∅ [Some noSpace]) (mkFiles ∅ []) noSpace)
    as (H1 & H2 & _ & _ & _ & _ & H3); [run | run |].
  split; [exact H1|]. split; [exact H2|]. split; [run | exact H3].
Defined.

Lemma listing_round_trip_witness :
  Forall (eq saved) (fst (submitAll [anaSilva; biaCosta] started))
  /\ exists contatos,
       res (snd (getContatos
                   (renew (snd (submitAll [anaSilva; biaCosta] started)))))
         = listed contatos
       /\ length contatos = 2%nat
       /\ map row_attrs contatos = [attrsOf anaSilva; attrsOf biaCosta].
Proof.
  apply (listing_round_trip [anaSilva; biaCosta] started);
    [reflexivity | reflexivity |].
  repeat constructor; run.
Defined.

Lemma submit_ignores_extra_fields_witness :
  let props := <[js "nome" := JString (js "Ana Silva")]>
                 (<[js "email" := JString (js "ana@example.com")]>
                    (<[js "telefone" := JString (js "(11) 91234-5678")]> ∅)) in
  let extra := <[js "isAdmin" := JBool true]> props in
  postRoot (JObject props) started = postRoot (JObject extra) started.
Proof.
  intros props extra.
  apply (proj1 (proj2 (proj2
           (submit_ignores_extra_fields props extra started
              ltac:(run) ltac:(run) ltac:(run))))).
Defined.

End Instances.

(** * Further properties of the application *)

Section AppTheory.
Context {Store Disk : Type} {zod : Zod} {router : Express}
        {model : Model Store} {fs : NodeFs Disk}.

Implicit Types w : World Store Disk.

(** The submit handler on a response nothing was written to, in full. *)
Lemma postRoot_fresh reqBody w :
  res w = fresh ->
  postRoot reqBody w =
  if passes reqBody then
    let '(r, db') := Contato_create (attrsOf reqBody) (db w) in
    let cs := calls w ++ [CallCreate (attrsOf reqBody)] in
    match r with
    | inl e => (Thrown e, mkWorld fresh (console w) db' cs (disk w))
    | inr _ => (Returned tt, mkWorld saved (console w) db' cs (disk w))
    end
  else
    (Returned tt,
     mkWorld (badRequest (messages (safeParse contatoSchema reqBody)))
             (console w) (db w) (calls w) (disk w)).
Proof.
  intros Hw. pose proof (safeParse_verdict reqBody) as Hv.
  destruct (safeParse contatoSchema reqBody) as [data|issues] eqn:Hr.
  - rewrite Hv. apply (postRoot_accepted reqBody data w Hr Hw).
  - destruct Hv as [-> _]. apply postRoot_rejected; assumption.
Qed.

Lemma getRoot_fresh w :
  res w = fresh ->
  getRoot w =
  (Returned tt, mkWorld indexView (console w) (db w) (calls w) (disk w)).
Proof.
  intros Hw. unfold getRoot, res_render, res_write, set_res.
  rewrite Hw. reflexivity.
Qed.

(** One request through the application, in full: the route's handler on
    a response of its own, the file system after the append of the line of
    the request, and the report of a failed append on the console. *)
Lemma app_run now req w :
  app now req w =
  let '(err, d') :=
    appendFile (path_join dirname (js "access.log")) (logEntry now req)
               (disk w) in
  let w1 := snd (dispatch req (renew w)) in
  (fst (dispatch req (renew w)),
   mkWorld (res w1)
           (console w1 ++ match err with
                          | Some e =>
                              [(js "Erro ao escrever no arquivo de log:", e)]
                          | None => []
                          end)
           (db w1) (calls w1) d').
Proof.
  unfold app. rewrite logger_run by apply dispatch_disk_blind. reflexivity.
Qed.

(** X1.  Every request is logged, whatever its route, its body and the
    way its handler ends (also a request no route matches, also a handler
    that fails): the file system after the request is the one left by the
    single append, to "access.log" in the directory of the program, of the
    line made of the time stamp, " - ", the method, a space, the URL and a
    line feed.  The handlers themselves leave the file system alone. *)
Theorem request_logged_once now req w :
  disk (snd (app now req w)) =
  snd (appendFile (path_join dirname (js "access.log"))
         (now ++ js " - " ++ method req ++ js " " ++ originalUrl req ++ [10])
         (disk w)).
Proof.
  rewrite app_run. fold (logEntry now req).
  destruct (appendFile _ _ (disk w)) as [err d']. reflexivity.
Qed.

(** X2.  A request routed to the form handler always ends well with
    status 200 and the view "index" without data, whatever its body, the
    state of the store and the fate of the log line; the store is neither
    called nor changed. *)
Theorem show_form_always_renders now req w :
  route (method req) (originalUrl req) = Some GetRoot ->
  fst (app now req w) = Returned tt
  /\ res (snd (app now req w)) = indexView
  /\ db (snd (app now req w)) = db w
  /\ calls (snd (app now req w)) = calls w.
Proof.
  intros Hr. rewrite app_run.
  destruct (appendFile _ _ (disk w)) as [err d'].
  unfold dispatch. rewrite Hr, (getRoot_fresh (renew w) eq_refl).
  repeat split.
Qed.

(** X3.  The one way an error leaves a handler: the request was routed to
    the submit handler, its body passed validation, and the store's create
    failed with that very error.  The form handler, the list handler, a
    rejected submission and an unrouted request never end in an error. *)
Theorem only_unguarded_create_escapes now req w e :
  fst (app now req w) = Thrown e ->
  route (method req) (originalUrl req) = Some PostRoot
  /\ passes (body req) = true
  /\ exists db', Contato_create (attrsOf (body req)) (db w) = (inl e, db').
Proof.
  rewrite app_run. destruct (appendFile _ _ (disk w)) as [err d'].
  cbn [fst]. unfold dispatch.
  destruct (route _ _) as [[| |]|].
  - rewrite (getRoot_fresh (renew w) eq_refl). discriminate.
  - rewrite (postRoot_fresh (body req) (renew w) eq_refl).
    destruct (passes (body req)); [|discriminate].
    cbn [renew db].
    destruct (Contato_create _ (db w)) as [[e'|row] db'] eqn:Hc;
      [|discriminate].
    intros [= ->]. eauto.
  - rewrite (getContatos_run (renew w) eq_refl).
    destruct (Contato_findAll _) as [[e'|rows] db']; discriminate.
  - discriminate.
Qed.

(** X4.  A submission leaves no trace on the console: when the log line
    is written, the console after a request routed to the submit handler is
    the console before it, be the body rejected, stored, or the store's
    create failed. *)
Theorem submit_never_logs now req w d' :
  route (method req) (originalUrl req) = Some PostRoot ->
  appendFile (path_join dirname (js "access.log")) (logEntry now req)
             (disk w) = (None, d') ->
  console (snd (app now req w)) = console w.
Proof.
  intros Hr Ha. rewrite app_run, Ha. unfold dispatch. rewrite Hr.
  rewrite (postRoot_fresh (body req) (renew w) eq_refl).
  cbn [snd console]. rewrite app_nil_r.
  destruct (passes (body req)); [|reflexivity].
  cbn [renew db]. destruct (Contato_create _ (db w)) as [[e'|row] db'];
    reflexivity.
Qed.

(** X5.  A submitted body that is not an object (no body at all, null,
    an array, a string, a number) is answered with status 400 and a single
    message, the library's message for a value that is not an object; no
    field is looked at and the store is not called. *)
Theorem non_object_body_single_message reqBody w :
  res w = fresh ->
  (forall props, reqBody <> JObject props) ->
  postRoot reqBody w =
  (Returned tt,
   mkWorld (mkResponse 400 (Some (Text (defaultError TObject reqBody))))
           (console w) (db w) (calls w) (disk w)).
Proof.
  intros Hw Hno.
  destruct reqBody as [| | | | | |props];
    [rewrite (postRoot_fresh _ w Hw); reflexivity..|].
  exfalso. exact (Hno props eq_refl).
Qed.

(** X6.  The calls of the store made by a series of submissions are the
    creates of the bodies that pass validation, one for each, in the order
    of submission, with the values submitted: a rejected body adds none, a
    body submitted twice is created twice, and a create that failed is not
    tried again. *)
Theorem submissions_call_trace bodies : forall w,
  calls (postAll bodies w) =
  calls w ++ map (fun b => CallCreate (attrsOf b))
                 (filter (fun b => passes b = true) bodies).
Proof.
  induction bodies as [|b rest IH]; intros w.
  - simpl. now rewrite app_nil_r.
  - cbn [postAll]. rewrite IH, (postRoot_fresh b (renew w) eq_refl).
    rewrite filter_cons. destruct (passes b) eqn:Hp.
    + rewrite decide_True by reflexivity.
      cbn [renew db calls]. destruct (Contato_create _ (db w)) as [[e|row] db'];
        cbn [snd calls map]; now rewrite <- app_assoc.
    + rewrite decide_False by discriminate. reflexivity.
Qed.

(** X7.  What a handler writes to the response.  For a request that is
    routed to one of the three handlers, the response the handler leaves is
    fixed by the route and the answer of the store.  The form handler
    leaves the form view.  The submit handler leaves the 400 with the
    joined messages when the body is rejected, the confirmation when the
    create succeeded, and writes nothing when the create failed (the answer
    is then not this program's).  The list handler leaves the view with the
    contacts found, or the 500 with its fixed text.  No handler writes
    another status or another body. *)
Theorem handler_writes_by_route now req w rt :
  route (method req) (originalUrl req) = Some rt ->
  let r := res (snd (app now req w)) in
  match rt with
  | GetRoot => r = indexView
  | PostRoot =>
      if passes (body req) then
        match fst (Contato_create (attrsOf (body req)) (db w)) with
        | inr _ => r = saved
        | inl _ => r = fresh
        end
      else r = badRequest (messages (safeParse contatoSchema (body req)))
  | GetContatos =>
      match fst (Contato_findAll (db w)) with
      | inr contatos => r = listed contatos
      | inl _ => r = listFailed
      end
  end.
Proof.
  intros Hrt. cbv zeta. rewrite app_run.
  destruct (appendFile _ _ (disk w)) as [err d'].
  cbn [snd res]. unfold dispatch. rewrite Hrt.
  destruct rt.
  - now rewrite (getRoot_fresh (renew w) eq_refl).
  - rewrite (postRoot_fresh (body req) (renew w) eq_refl).
    destruct (passes (body req)); [|reflexivity].
    cbn [renew db]. destruct (Contato_create _ (db w)) as [[e'|row] db'];
      reflexivity.
  - rewrite (getContatos_run (renew w) eq_refl). cbn [renew db].
    destruct (Contato_findAll (db w)) as [[e'|rows] db']; reflexivity.
Qed.

(** X8.  A request makes at most one call of the store, and the store
    changes through that call only: the create of the submitted values for
    an accepted submission, findAll for the list, and no call, with the
    store as it was, for the form, a rejected submission and an unrouted
    request. *)
Theorem one_store_call_per_request now req w :
  let w' := snd (app now req w) in
  match route (method req) (originalUrl req) with
  | Some PostRoot =>
      if passes (body req) then
        calls w' = calls w ++ [CallCreate (attrsOf (body req))]
        /\ db w' = snd (Contato_create (attrsOf (body req)) (db w))
      else calls w' = calls w /\ db w' = db w
  | Some GetContatos =>
      calls w' = calls w ++ [CallFindAll]
      /\ db w' = snd (Contato_findAll (db w))
  | _ => calls w' = calls w /\ db w' = db w
  end.
Proof.
  cbv zeta. rewrite app_run. destruct (appendFile _ _ (disk w)) as [err d'].
  cbn [snd calls db]. unfold dispatch.
  destruct (route _ _) as [[| |]|].
  - rewrite (getRoot_fresh (renew w) eq_refl). split; reflexivity.
  - rewrite (postRoot_fresh (body req) (renew w) eq_refl).
    destruct (passes (body req)); [|split; reflexivity].
    cbn [renew db calls].
    destruct (Contato_create _ (db w)) as [[e'|row] db']; split; reflexivity.
  - rewrite (getContatos_run (renew w) eq_refl). cbn [renew db calls].
    destruct (Contato_findAll (db w)) as [[e'|rows] db']; split; reflexivity.
  - split; reflexivity.
Qed.

End AppTheory.

(** * The model registry *)

Module ModelsTheory.
Import Models.

Lemma endsWith_suffix (s t : jsstring) :
  endsWith s t = true <-> t `suffix_of` s.
Proof.
  unfold endsWith. destruct (Nat.ltb_spec (length s) (length t)) as [Hlt|Hle].
  - split; [discriminate|]. intros [k ->]. rewrite length_app in Hlt. lia.
  - rewrite bool_decide_eq_true. split.
    + intros Hd. exists (take (length s - length t) s).
      pose proof (take_drop (length s - length t) s) as Htd.
      rewrite Hd in Htd. symmetry. exact Htd.
    + intros [k ->]. rewrite length_app.
      replace (length k + length t - length t)%nat with (length k) by lia.
      apply drop_app_length.
Qed.

Lemma isModelFile_spec basename file :
  isModelFile basename file = true <->
  file <> basename /\ js ".js" `suffix_of` file
  /\ ~ js ".test.js" `suffix_of` file.
Proof.
  unfold isModelFile.
  rewrite !andb_true_iff, !negb_true_iff, bool_decide_eq_false,
    <- not_true_iff_false, !endsWith_suffix.
  tauto.
Qed.

Section Objects.
Context {V : Type}.
Implicit Types o : Obj V.

Lemma own_assign o k v k' :
  own k' (assign k v o) = if decide (k' = k) then Some v else own k' o.
Proof.
  induction o as [|[k0 v0] t IH]; unfold own in *; cbn [assign find fst].
  - case_bool_decide; case_decide; simplify_eq; reflexivity.
  - case_bool_decide as H0; cbn [find fst].
    + subst k0. case_bool_decide; case_decide; simplify_eq; reflexivity.
    + case_bool_decide as H1.
      * subst k0. rewrite decide_False by congruence. reflexivity.
      * exact IH.
Qed.

Lemma own_put o k v k' :
  own k' (put k v o) =
  if decide (k = js "__proto__") then own k' o
  else if decide (k' = k) then Some v else own k' o.
Proof.
  unfold put. destruct (decide (k = js "__proto__")) as [Hp|Hp].
  - rewrite bool_decide_eq_true_2 by exact Hp. reflexivity.
  - rewrite bool_decide_eq_false_2 by exact Hp. apply own_assign.
Qed.

Lemma keys_assign o k v :
  map fst (assign k v o) =
  if decide (k ∈ map fst o) then map fst o else map fst o ++ [k].
Proof.
  induction o as [|[k0 v0] t IH]; cbn [assign map fst].
  - rewrite decide_False by (intros H; inversion H). reflexivity.
  - case_bool_decide as H0; cbn [map fst].
    + subst. rewrite decide_True by left. reflexivity.
    + rewrite IH. destruct (decide (k ∈ map fst t)) as [Hin|Hin].
      * rewrite decide_True by (right; exact Hin). reflexivity.
      * rewrite decide_False; [reflexivity|].
        intros Hc. inversion Hc; subst; tauto.
Qed.

Lemma NoDup_assign o k v : NoDup (map fst o) -> NoDup (map fst (assign k v o)).
Proof.
  intros Hnd. rewrite keys_assign. case_decide; [exact Hnd|].
  apply NoDup_app. repeat split; [exact Hnd | | apply NoDup_singleton].
  intros x Hx Hk. apply list_elem_of_singleton in Hk. subst. tauto.
Qed.

Lemma own_Some o k v :
  NoDup (map fst o) -> own k o = Some v <-> In (k, v) o.
Proof.
  induction o as [|[k0 v0] t IH]; intros Hnd; unfold own in *; cbn [find fst].
  - split; [discriminate | intros []].
  - cbn [map fst] in Hnd. apply NoDup_cons in Hnd as [Hk0 Hnd].
    case_bool_decide as H0; cbn [fmap option_fmap option_map snd In].
    + subst k0. split.
      * intros [= ->]. left. reflexivity.
      * intros [[= ->]|Hin]; [reflexivity|].
        exfalso. apply Hk0. apply list_elem_of_In, in_map_iff.
        exists (k, v). auto.
    + rewrite (IH Hnd). split; [tauto|].
      intros [[= <- <-]|Hin]; [tauto | exact Hin].
Qed.

Lemma insertByIndex_perm i (p : jsstring * V) l :
  Permutation (map snd (insertByIndex i p l)) (p :: map snd l).
Proof.
  induction l as [|[j q] t IH]; cbn [insertByIndex map snd]; [reflexivity|].
  destruct (i <=? j); cbn [map snd]; [reflexivity|].
  rewrite IH. apply perm_swap.
Qed.

(** [Object.values] visits every own property once. *)
Lemma entries_perm o : Permutation (entries o) o.
Proof.
  unfold entries. induction o as [|p t IH]; cbn [indexed named List.filter];
    [reflexivity|].
  destruct (arrayIndex (fst p)) as [i|].
  - rewrite insertByIndex_perm. cbn [Datatypes.app]. constructor. exact IH.
  - rewrite <- Permutation_middle. constructor. exact IH.
Qed.

End Objects.

Lemma loadAll_prefix load files : forall db,
  exists rest, files = fst (loadAll load files db) ++ rest.
Proof.
  induction files as [|f files IH]; intros db; cbn [loadAll].
  - exists []. reflexivity.
  - destruct (load f) as [e|m].
    + exists files. reflexivity.
    + destruct (IH (put (name m) m db)) as [rest Hrest].
      destruct (loadAll load files _) as [req r]. cbn [fst] in *.
      exists rest. cbn [Datatypes.app]. congruence.
Qed.

Lemma loadAll_inr load files : forall db req db',
  loadAll load files db = (req, inr db') ->
  req = files
  /\ Forall (fun f => exists m, load f = inr m) files
  /\ db' = foldl register db (modelsOf load files).
Proof.
  induction files as [|f files IH]; intros db req db'; cbn [loadAll].
  - intros [= <- <-]. repeat split. constructor.
  - unfold modelsOf. cbn [omap list_omap].
    destruct (load f) as [e|m] eqn:Hf; [discriminate|].
    destruct (loadAll load files _) as [req' r] eqn:Hl.
    intros [= <- ->]. destruct (IH _ _ _ Hl) as (-> & Hall & ->).
    repeat split. constructor; eauto.
Qed.

Lemma loadAll_inl load pre f post e : forall db,
  Forall (fun f => exists m, load f = inr m) pre ->
  load f = inl e ->
  loadAll load (pre ++ f :: post) db = (pre ++ [f], inl e).
Proof.
  induction pre as [|p pre IH]; intros db Hpre Hf; cbn [loadAll Datatypes.app].
  - rewrite Hf. reflexivity.
  - inversion Hpre as [|? ? [m Hm] Hrest]; subst. rewrite Hm.
    rewrite (IH _ Hrest Hf). reflexivity.
Qed.

Lemma associateAll_None db models calls :
  associateAll db models = (calls, None) ->
  calls = map (fun m => (name m, db))
              (List.filter (fun m => bool_decide (is_Some (associate m))) models).
Proof.
  revert calls. induction models as [|m models IH]; intros calls;
    cbn [associateAll List.filter].
  - intros [= <-]. reflexivity.
  - destruct (associate m) as [f|].
    + rewrite bool_decide_eq_true_2 by eauto.
      destruct (f db); [discriminate|].
      destruct (associateAll db models) as [cs r].
      intros [= <- ->]. cbn [map]. f_equal. apply IH. reflexivity.
    + rewrite bool_decide_eq_false_2 by (intros [? ?]; discriminate).
      apply IH.
Qed.

(** What a registry filled by the loop holds under a key: the last model
    registered under that name. *)
Lemma own_registered models : forall db k,
  own k (foldl register db models) =
  if decide (k = js "__proto__") then own k db
  else match last (List.filter (fun m => bool_decide (name m = k)) models) with
       | Some m => Some m
       | None => own k db
       end.
Proof.
  induction models as [|m models IH] using rev_ind; intros db k.
  - cbn [foldl List.filter last]. destruct (decide _); reflexivity.
  - rewrite foldl_snoc, List.filter_app. unfold register at 1.
    rewrite own_put, IH. cbn [List.filter].
    destruct (decide (k = js "__proto__")) as [Hk|Hk].
    + case_decide; [reflexivity|]. case_decide; [congruence|reflexivity].
    + case_bool_decide as Hn.
      * rewrite last_snoc. subst k. rewrite decide_False by exact Hk.
        rewrite decide_True by reflexivity. reflexivity.
      * rewrite app_nil_r. case_decide as Hp.
        -- reflexivity.
        -- rewrite decide_False by congruence. reflexivity.
Qed.

Lemma wellKeyed_register db m : wellKeyed db -> wellKeyed (register db m).
Proof.
  intros [Hnd Hall]. unfold register, put. case_bool_decide as Hp;
    [split; assumption|].
  split; [apply NoDup_assign; exact Hnd|].
  clear Hnd. induction db as [|[k0 m0] t IH]; cbn [assign].
  - repeat constructor. exact Hp.
  - inversion Hall as [|? ? [Hn0 Hp0] Ht]; subst. cbn [fst snd] in *.
    case_bool_decide as H0.
    + constructor; [|exact Ht]. cbn [fst snd]. split; congruence.
    + constructor; [split; assumption|]. apply IH. exact Ht.
Qed.

Lemma wellKeyed_foldl models : forall db,
  wellKeyed db -> wellKeyed (foldl register db models).
Proof.
  induction models as [|m models IH]; intros db Hdb; [exact Hdb|].
  cbn [foldl]. apply IH, wellKeyed_register, Hdb.
Qed.

Lemma wellKeyed_nil : wellKeyed [].
Proof. split; constructor. Qed.


Lemma own_map {V W} (g : V -> W) (o : Obj V) k :
  own k (map (fun p => (fst p, g (snd p))) o) = g <$> own k o.
Proof.
  unfold own. induction o as [|[k0 v0] t IH]; cbn [map find fst snd];
    [reflexivity|].
  case_bool_decide; [reflexivity | exact IH].
Qed.

Lemma own_is_Some {V} (o : Obj V) k :
  is_Some (own k o) <-> In k (map fst o).
Proof.
  unfold own. induction o as [|[k0 v0] t IH]; cbn [map find fst In].
  - split; [intros [? ?]; discriminate | intros []].
  - case_bool_decide as H0.
    + split; [auto | intros _; eexists; reflexivity].
    + rewrite IH. tauto.
Qed.

Lemma last_filter_is_Some {A} (P : A -> bool) (l : list A) :
  is_Some (last (List.filter P l)) <-> exists x, In x l /\ P x = true.
Proof.
  split.
  - intros [x Hx]. exists x. apply filter_In, list_elem_of_In.
    apply last_Some in Hx as [l' Hl']. rewrite Hl'.
    apply elem_of_app. right. left.
  - intros (x & Hin & HP).
    assert (Hx : In x (List.filter P l)) by (apply filter_In; auto).
    destruct (List.filter P l) as [|y t] using rev_ind; [destruct Hx|].
    rewrite last_snoc. eauto.
Qed.

Lemma NoDup_map_filter {A B} (f : A -> B) (P : A -> bool) (l : list A) :
  NoDup (map f l) -> NoDup (map f (List.filter P l)).
Proof.
  induction l as [|x l IH]; cbn [map List.filter]; [auto|].
  intros Hnd. apply NoDup_cons in Hnd as [Hx Hnd].
  destruct (P x); [|auto]. cbn [map]. apply NoDup_cons. split; [|auto].
  intros Hin. apply Hx. apply list_elem_of_In, in_map_iff.
  apply list_elem_of_In, in_map_iff in Hin as (y & Hy & Hin).
  apply filter_In in Hin as [Hin _]. eauto.
Qed.

Lemma init_required basename load dir :
  required (init basename load dir) =
  fst (loadAll load (List.filter (isModelFile basename) dir) []).
Proof.
  unfold init. destruct (loadAll _ _ _) as [req [e|db]]; [reflexivity|].
  destruct (associateAll _ _) as [calls [e|]]; reflexivity.
Qed.

(** A run that ends with the exported object: every selected file gave a
    model, the registry is the models registered in turn, and every
    [associate] returned. *)
Lemma init_inr basename load dir db :
  exports (init basename load dir) = inr db ->
  let files := List.filter (isModelFile basename) dir in
  let registry := foldl register [] (modelsOf load files) in
  required (init basename load dir) = files
  /\ associated (init basename load dir) =
     map (fun m => (name m, keys registry))
       (List.filter (fun m => bool_decide (is_Some (associate m)))
                    (values registry))
  /\ db = put (js "Sequelize") IsSequelize
            (put (js "sequelize") IsConnection
               (map (fun p => (fst p, IsModel (snd p))) registry)).
Proof.
  unfold init.
  destruct (loadAll _ _ _) as [req [e|db0]] eqn:Hl; [discriminate|].
  apply loadAll_inr in Hl as (-> & _ & ->).
  destruct (associateAll _ _) as [calls [e|]] eqn:Ha; [discriminate|].
  apply associateAll_None in Ha as ->.
  cbn [exports required associated]. intros [= <-]. repeat split.
Qed.

Lemma distinct_keys :
  js "sequelize" <> js "__proto__" /\ js "Sequelize" <> js "__proto__"
  /\ js "Sequelize" <> js "sequelize".
Proof. repeat split; vm_compute; discriminate. Qed.

(** X9.  The registry requires nothing but model files: every file it
    requires is an entry of its directory, is not the file of the registry
    itself, has a name that ends in ".js", and not in ".test.js". *)
Theorem loader_requires_only_model_files basename load dir :
  Forall (fun file =>
            In file dir /\ file <> basename
            /\ js ".js" `suffix_of` file
            /\ ~ js ".test.js" `suffix_of` file)
         (required (init basename load dir)).
Proof.
  rewrite init_required.
  destruct (loadAll_prefix load (List.filter (isModelFile basename) dir) [])
    as [rest Hrest].
  apply Forall_forall. intros f Hf.
  assert (Hin : In f (List.filter (isModelFile basename) dir)).
  { rewrite Hrest. apply in_or_app. left. apply list_elem_of_In, Hf. }
  apply filter_In in Hin as [Hin Hsel].
  apply isModelFile_spec in Hsel. tauto.
Qed.

(** X10.  What requiring a file outside the selection would give (the
    registry's own file, a test file, an entry that is no ".js" file) has
    no influence on what the registry does. *)
Theorem loader_ignores_other_files basename load1 load2 dir :
  (forall file, isModelFile basename file = true -> load1 file = load2 file) ->
  init basename load1 dir = init basename load2 dir.
Proof.
  intros Hsame. unfold init.
  assert (Hl : forall files db,
             Forall (fun f => isModelFile basename f = true) files ->
             loadAll load1 files db = loadAll load2 files db).
  { induction files as [|f files IH]; intros db Hall; [reflexivity|].
    inversion Hall; subst. cbn [loadAll]. rewrite <- Hsame by assumption.
    destruct (load1 f); [reflexivity|]. rewrite IH by assumption.
    reflexivity. }
  rewrite Hl; [reflexivity|].
  apply Forall_forall. intros f Hf.
  apply list_elem_of_In, filter_In in Hf. tauto.
Qed.

(** X11.  When requiring a selected file fails, the registry fails with
    that error at once: the files after it are not required, no [associate]
    is called, and nothing is exported. *)
Theorem loader_stops_at_first_failure basename load dir pre file post e :
  List.filter (isModelFile basename) dir = pre ++ file :: post ->
  Forall (fun f => exists m, load f = inr m) pre ->
  load file = inl e ->
  init basename load dir = mkLoaded (pre ++ [file]) [] (inl e).
Proof.
  intros Hsel Hpre Hfile. unfold init.
  rewrite Hsel, (loadAll_inl load pre file post e [] Hpre Hfile).
  reflexivity.
Qed.

(** X12.  What the exported object holds.  Under "sequelize" and
    "Sequelize", the connection and the library, also when a model has one
    of these names; under any other key, the model of that name that was
    loaded last, if one was (a later file replaces the model an earlier
    file registered under the same name); and no own property
    "__proto__". *)
Theorem exports_last_wins basename load dir db :
  exports (init basename load dir) = inr db ->
  let models := modelsOf load (List.filter (isModelFile basename) dir) in
  own (js "sequelize") db = Some IsConnection
  /\ own (js "Sequelize") db = Some IsSequelize
  /\ forall k,
       k <> js "sequelize" -> k <> js "Sequelize" ->
       own k db =
       if decide (k = js "__proto__") then None
       else IsModel <$>
              last (List.filter (fun m => bool_decide (name m = k)) models).
Proof.
  intros Hdb models.
  destruct (init_inr basename load dir db Hdb) as (_ & _ & ->).
  destruct distinct_keys as (H1 & H2 & H3).
  rewrite !own_put.
  rewrite (decide_False (P := js "Sequelize" = js "__proto__")) by exact H2.
  rewrite (decide_False (P := js "sequelize" = js "__proto__")) by exact H1.
  rewrite (decide_True (P := js "Sequelize" = js "Sequelize")) by reflexivity.
  rewrite (decide_False (P := js "sequelize" = js "Sequelize")) by congruence.
  rewrite (decide_True (P := js "sequelize" = js "sequelize")) by reflexivity.
  split; [reflexivity|]. split; [reflexivity|].
  intros k Hk1 Hk2. rewrite !own_put.
  rewrite (decide_False (P := js "Sequelize" = js "__proto__")) by exact H2.
  rewrite (decide_False (P := js "sequelize" = js "__proto__")) by exact H1.
  rewrite (decide_False (P := k = js "Sequelize")) by exact Hk2.
  rewrite (decide_False (P := k = js "sequelize")) by exact Hk1.
  rewrite own_map, own_registered. fold models.
  case_decide; [reflexivity|].
  destruct (last _); reflexivity.
Qed.

(** X13.  The association pass, when the registry loads: [associate] is
    called once on each registered model that has one (a model replaced by
    a later one of the same name is not registered any more, and is not
    called), and each call is shown all the registered models, those of
    files loaded after its own included, and nothing else. *)
Theorem associate_once_each basename load dir db :
  exports (init basename load dir) = inr db ->
  let models := modelsOf load (List.filter (isModelFile basename) dir) in
  let calls := associated (init basename load dir) in
  NoDup (map fst calls)
  /\ (forall k,
        In k (map fst calls) <->
        k <> js "__proto__"
        /\ exists m,
             last (List.filter (fun m => bool_decide (name m = k)) models)
               = Some m
             /\ is_Some (associate m))
  /\ (forall n shown,
        In (n, shown) calls ->
        forall k,
          In k shown <->
          k <> js "__proto__" /\ exists m, In m models /\ name m = k).
Proof.
  intros Hdb models calls. subst calls.
  destruct (init_inr basename load dir db Hdb) as (_ & -> & _).
  fold models. set (registry := foldl register [] models).
  assert (Hwk : wellKeyed registry) by apply wellKeyed_foldl, wellKeyed_nil.
  destruct Hwk as [Hnd Hkeyed].
  pose proof (entries_perm registry) as Hperm.
  assert (Hkeyed' : Forall (fun p => name (snd p) = fst p
                                     /\ fst p <> js "__proto__")
                           (entries registry)).
  { rewrite Hperm. exact Hkeyed. }
  assert (Hnames : map name (values registry) = keys registry).
  { unfold values, keys. rewrite map_map. apply map_ext_Forall.
    eapply Forall_impl; [exact Hkeyed'|]. intros p [Hp _]. exact Hp. }
  assert (Hentry : forall p, In p (entries registry) <-> In p registry).
  { intros p. split; apply Permutation_in; [exact Hperm|].
    symmetry. exact Hperm. }
  assert (Hkey : forall k, In k (keys registry) <-> In k (map fst registry)).
  { intros k. unfold keys. split; apply Permutation_in, Permutation_map;
      [exact Hperm|]. symmetry. exact Hperm. }
  assert (Hnd' : NoDup (keys registry)).
  { unfold keys. rewrite Hperm. exact Hnd. }
  assert (Hown : forall k,
             own k registry =
             if decide (k = js "__proto__") then None
             else last (List.filter (fun m => bool_decide (name m = k))
                                    models)).
  { intros k. unfold registry. rewrite own_registered.
    case_decide; [reflexivity|]. destruct (last _); reflexivity. }
  assert (Hval : forall k m,
             In m (values registry) /\ name m = k <-> own k registry = Some m).
  { intros k m. rewrite (own_Some registry k m Hnd), <- (Hentry (k, m)).
    unfold values. rewrite in_map_iff. split.
    - intros [([k' m'] & Hsnd & Hin) Hn]. cbn in Hsnd. subst m'.
      eapply Forall_forall in Hkeyed'; [|apply list_elem_of_In, Hin].
      cbn [fst snd] in Hkeyed'. destruct Hkeyed' as [Hk' _]. congruence.
    - intros Hin. split; [exists (k, m); auto|].
      eapply Forall_forall in Hkeyed'; [|apply list_elem_of_In, Hin].
      cbn [fst snd] in Hkeyed'. apply Hkeyed'. }
  rewrite map_map. cbn [fst].
  split; [|split].
  - apply (NoDup_map_filter name). rewrite Hnames. exact Hnd'.
  - intros k. rewrite in_map_iff. split.
    + intros (m & Hn & Hin). apply filter_In in Hin as [Hin Hhas].
      apply bool_decide_eq_true in Hhas.
      assert (Ho : own k registry = Some m) by (apply Hval; auto).
      rewrite Hown in Ho. case_decide; [discriminate|]. eauto.
    + intros (Hk & m & Hlast & Hhas).
      assert (Ho : own k registry = Some m).
      { rewrite Hown, decide_False by exact Hk. exact Hlast. }
      apply Hval in Ho as [Hin Hn]. exists m. split; [exact Hn|].
      apply filter_In. split; [exact Hin|].
      apply bool_decide_eq_true. exact Hhas.
  - intros n shown Hin k. apply in_map_iff in Hin as (m0 & [= _ <-] & _).
    rewrite Hkey, <- own_is_Some, Hown.
    case_decide as Hk.
    + split; [intros [? ?]; discriminate | tauto].
    + rewrite last_filter_is_Some. split.
      * intros (m & Hin & Hn). apply bool_decide_eq_true in Hn. eauto.
      * intros (_ & m & Hin & Hn). exists m. split; [exact Hin|].
        apply bool_decide_eq_true. exact Hn.
Qed.

End ModelsTheory.

(** ** The further properties at concrete inputs *)

Section MoreInstances.

#[local] Existing Instances zod3 exactRouter tableModel filesFs.

Ltac run := vm_compute; reflexivity.

Lemma show_form_always_renders_witness :
  let w := boot (emptyTable [Some connectionLost]) (mkFiles ∅ [Some noSpace]) in
  let req := mkRequest (js "GET") (js "/") anaSilva in
  fst (app noon req w) = Returned tt
  /\ res (snd (app noon req w)) = indexView
  /\ db (snd (app noon req w)) = db w
  /\ calls (snd (app noon req w)) = calls w.
Proof.
  intros w req. apply (show_form_always_renders noon req w). run.
Defined.

Example path_join_samples :
  path_join (js "/srv/app") (js "access.log") = js "/srv/app/access.log"
  /\ path_join (js "/") (js "access.log") = js "/access.log".
Proof. split; run. Qed.

Lemma handler_writes_by_route_witness :
  let w := boot (emptyTable [Some connectionLost]) (mkFiles ∅ []) in
  res (snd (app noon (mkRequest (js "GET") (js "/contatos") JUndefined) w))
  = listFailed.
Proof.
  intros w.
  pose proof (handler_writes_by_route
                (zod := zod3) (router := exactRouter) (model := tableModel)
                (fs := filesFs) noon
                (mkRequest (js "GET") (js "/contatos") JUndefined) w
                GetContatos ltac:(run)) as Hres.
  cbv zeta iota in Hres.
  change (fst (Contato_findAll (db w))) with (@inl JsError (list Row) connectionLost)
    in Hres.
  exact Hres.
Defined.

Lemma only_unguarded_create_escapes_witness :
  let w := boot (emptyTable [Some connectionLost]) (mkFiles ∅ []) in
  let req := mkRequest (js "POST") (js "/") anaSilva in
  fst (app noon req w) = Thrown connectionLost
  /\ passes (body req) = true
  /\ exists db',
       Contato_create (attrsOf (body req)) (db w) = (inl connectionLost, db').
Proof.
  intros w req. split; [run|].
  apply (only_unguarded_create_escapes noon req w connectionLost). run.
Defined.

Lemma submit_never_logs_witness :
  let w := boot (emptyTable [Some connectionLost]) (mkFiles ∅ []) in
  let req := mkRequest (js "POST") (js "/") anaSilva in
  fst (app noon req w) = Thrown connectionLost
  /\ console (snd (app noon req w)) = [].
Proof.
  intros w req. split; [run|].
  apply (submit_never_logs noon req w
           (snd (appendFile (path_join dirname (js "access.log"))
                   (logEntry noon req) (disk w)))); run.
Defined.

Lemma non_object_body_single_message_witness :
  postRoot (JArray [JString (js "Ana Silva")]) started =
  (Returned tt,
   mkWorld (mkResponse 400 (Some (Text (js "Expected object, received array"))))
           [] (emptyTable []) [] (mkFiles ∅ [])).
Proof.
  rewrite (non_object_body_single_message
             (JArray [JString (js "Ana Silva")]) started eq_refl
             ltac:(discriminate)).
  run.
Defined.

Lemma loader_ignores_other_files_witness :
  otherLoad (js "index.js") <> sampleLoad (js "index.js")
  /\ Models.init (js "index.js") sampleLoad sampleDir
     = Models.init (js "index.js") otherLoad sampleDir.
Proof.
  split; [vm_compute; discriminate|].
  apply (ModelsTheory.loader_ignores_other_files (js "index.js")
           sampleLoad otherLoad sampleDir).
  intros file Hsel. unfold otherLoad. rewrite Hsel. reflexivity.
Defined.

Lemma loader_stops_at_first_failure_witness :
  Models.init (js "index.js") sampleLoad
    [js "contato.js"; js "index.js"; js "broken.js"; js "user.js"]
  = Models.mkLoaded [js "contato.js"; js "broken.js"] []
      (inl (mkError (js "SyntaxError") (js "Unexpected token"))).
Proof.
  apply (ModelsTheory.loader_stops_at_first_failure (js "index.js") sampleLoad
           [js "contato.js"; js "index.js"; js "broken.js"; js "user.js"]
           [js "contato.js"] (js "broken.js") [js "user.js"]).
  - run.
  - repeat constructor. exists contatoModel. run.
  - run.
Defined.

Lemma exports_last_wins_witness :
  Models.own (js "Contato") sampleExports = Some (Models.IsModel contatoModel)
  /\ Models.own (js "sequelize") sampleExports = Some Models.IsConnection.
Proof.
  destruct (ModelsTheory.exports_last_wins (js "index.js") sampleLoad
              sampleDir sampleExports ltac:(run)) as (Hc & _ & Hk).
  split; [|exact Hc].
  rewrite (Hk (js "Contato")) by (vm_compute; discriminate). run.
Defined.

Lemma associate_once_each_witness :
  map fst (Models.associated
             (Models.init (js "index.js") sampleLoad sampleDir))
  = [js "User"]
  /\ NoDup (map fst (Models.associated
                       (Models.init (js "index.js") sampleLoad sampleDir))).
Proof.
  split; [run|].
  pose proof (ModelsTheory.associate_once_each (js "index.js") sampleLoad
                sampleDir sampleExports ltac:(run)) as Hcalls.
  cbv zeta in Hcalls. destruct Hcalls as (Hnd & _ & _). exact Hnd.
Defined.

End MoreInstances.
